(** * decaffeinate command line front-end (src/cli.js)

    A shallow embedding of the command line driver of decaffeinate:
    argument parsing, the path traversal of [runWithPaths], the stream
    mode of [runWithStdio] and the conversion wrapper [runWithCode],
    together with the functions of Node's [path] module that the driver
    imports ([join], [dirname], [basename], [extname]).

    JavaScript strings are modelled as [string]; every character the
    code inspects ('/', '.', ',', '-') is ASCII, so the byte view and
    the UTF-16 view of a string agree on everything the code tests. *)

From Stdlib Require Import ZArith List Bool Ascii String Lia.
Import ListNotations.

Local Open Scope string_scope.
Local Open Scope Z_scope.

(** ** JavaScript string primitives *)

Module Js.

Definition length (s : string) : Z := Z.of_nat (String.length s).

(** [s.slice(b, e)]: negative indices count from the end, everything is
    clamped to the string. *)
Definition slice (s : string) (b e : Z) : string :=
  let len := length s in
  let from := if b <? 0 then Z.max (len + b) 0 else Z.min b len in
  let to := if e <? 0 then Z.max (len + e) 0 else Z.min e len in
  substring (Z.to_nat from) (Z.to_nat (to - from)) s.

(** [s.startsWith(p)] *)
Definition startsWith (s p : string) : bool := String.prefix p s.

(** [s.endsWith(suffix)] *)
Definition endsWith (s suffix : string) : bool :=
  let n := String.length s in
  let k := String.length suffix in
  (k <=? n)%nat && String.eqb (substring (n - k) k s) suffix.

(** [s.split(',')]: the pieces between the commas, never an empty list. *)
Fixpoint splitComma (s : string) : list string :=
  match s with
  | EmptyString => [EmptyString]
  | String c rest =>
      if Ascii.eqb c "," then EmptyString :: splitComma rest
      else match splitComma rest with
           | [] => [String c EmptyString]
           | piece :: pieces => String c piece :: pieces
           end
  end.

End Js.

(** ** Node's [path] module, POSIX flavour

    The driver imports [join], [dirname], [basename] and [extname] from
    Node's [path].  They are transcribed here from the character loops
    of Node's lib/path.js (the implementation shipped with Node 6 to 8,
    the releases this version of the driver runs on): every loop
    variable of the JavaScript keeps its name, an index is a [Z], and a
    backwards loop [for (i = path.length - 1; i >= 0; --i)] walks the
    reversed character list with [i] counted down. *)

Module NodePath.

Definition isSlash (c : ascii) : bool := Ascii.eqb c "/".
Definition isDot (c : ascii) : bool := Ascii.eqb c ".".

Definition chars (s : string) : list ascii := list_ascii_of_string s.

(** *** normalizeStringPosix *)

Record NormVars := mkNorm { res : string; lastSlash : Z; dots : Z }.

(** [res.charCodeAt(k) === 46] *)
Definition dotAt (s : string) (k : Z) : bool :=
  if k <? 0 then false
  else match String.get (Z.to_nat k) s with
       | Some c => isDot c
       | None => false
       end.

(** The inner loop [for (j = start; j >= 0; --j) if (res[j] is '/') break]:
    the index of the last '/' of [res], or -1. *)
Fixpoint lastSlashIndex (rres : list ascii) (j : Z) : Z :=
  match rres with
  | [] => -1
  | c :: rest => if isSlash c then j else lastSlashIndex rest (j - 1)
  end.

(** Body of the loop of [normalizeStringPosix] when [code] is '/'. *)
Definition normSlash (path : string) (allowAboveRoot : bool) (i : Z)
    (v : NormVars) : NormVars :=
  let r := res v in
  if (lastSlash v =? i - 1) || (dots v =? 1) then
    mkNorm r i 0
  else if dots v =? 2 then
    let above :=
      mkNorm (if allowAboveRoot
              then (if 0 <? Js.length r then r ++ "/.." else "..")
              else r) i 0 in
    if (Js.length r <? 2)
       || negb (dotAt r (Js.length r - 1))
       || negb (dotAt r (Js.length r - 2)) then
      if 2 <? Js.length r then
        let start := Js.length r - 1 in
        let j := lastSlashIndex (rev (chars r)) start in
        if negb (j =? start) then
          mkNorm (if j =? -1 then "" else Js.slice r 0 j) i 0
        else above
      else if (Js.length r =? 2) || (Js.length r =? 1) then
        mkNorm "" i 0
      else above
    else above
  else
    let segment := Js.slice path (lastSlash v + 1) i in
    mkNorm (if 0 <? Js.length r then r ++ "/" ++ segment else segment) i 0.

(** Body of the loop for any other character. *)
Definition normChar (code : ascii) (v : NormVars) : NormVars :=
  if isDot code && negb (dots v =? -1)
  then mkNorm (res v) (lastSlash v) (dots v + 1)
  else mkNorm (res v) (lastSlash v) (-1).

(** The loop [for (i = 0; i <= path.length; ++i)]: [rest] holds the
    characters from index [i] on, [code] the character read last. *)
Fixpoint normLoop (path : string) (allowAboveRoot : bool)
    (rest : list ascii) (i : Z) (code : option ascii) (v : NormVars)
    : NormVars :=
  match rest with
  | c :: rest' =>
      normLoop path allowAboveRoot rest' (i + 1) (Some c)
        (if isSlash c then normSlash path allowAboveRoot i v
         else normChar c v)
  | [] =>
      match code with
      | Some c => if isSlash c then v
                  else normSlash path allowAboveRoot i v
      | None => normSlash path allowAboveRoot i v
      end
  end.

Definition normalizeStringPosix (path : string) (allowAboveRoot : bool)
    : string :=
  res (normLoop path allowAboveRoot (chars path) 0 None (mkNorm "" (-1) 0)).

(** *** normalize and join *)

Definition firstIsSlash (path : string) : bool :=
  match path with
  | String c _ => isSlash c
  | EmptyString => false
  end.

Definition lastIsSlash (path : string) : bool :=
  match rev (chars path) with
  | c :: _ => isSlash c
  | [] => false
  end.

Definition normalize (path : string) : string :=
  if Js.length path =? 0 then "."
  else
    let isAbsolute := firstIsSlash path in
    let trailingSeparator := lastIsSlash path in
    let path1 := normalizeStringPosix path (negb isAbsolute) in
    let path2 :=
      if (Js.length path1 =? 0) && negb isAbsolute then "." else path1 in
    let path3 :=
      if (0 <? Js.length path2) && trailingSeparator
      then path2 ++ "/" else path2 in
    if isAbsolute then "/" ++ path3 else path3.

(** [join(a, b)]: empty arguments are skipped, the rest is glued with
    '/' and normalized. *)
Definition join (a b : string) : string :=
  let joined0 := if 0 <? Js.length a then Some a else None in
  let joined :=
    if 0 <? Js.length b then
      match joined0 with
      | None => Some b
      | Some j => Some (j ++ "/" ++ b)
      end
    else joined0 in
  match joined with
  | None => "."
  | Some j => normalize j
  end.

(** *** dirname *)

Record DirVars := mkDir { d_end : Z; d_matchedSlash : bool }.

(** The loop [for (i = path.length - 1; i >= 1; --i)] of [dirname]; the
    result is the state of the variables when the loop is left. *)
Fixpoint dirnameLoop (rpath : list ascii) (i : Z) (v : DirVars) : DirVars :=
  match rpath with
  | [] => v
  | code :: rest =>
      if i <? 1 then v
      else if isSlash code then
        if negb (d_matchedSlash v) then mkDir i (d_matchedSlash v)
        else dirnameLoop rest (i - 1) v
      else dirnameLoop rest (i - 1) (mkDir (d_end v) false)
  end.

Definition dirname (path : string) : string :=
  if Js.length path =? 0 then "."
  else
    let hasRoot := firstIsSlash path in
    let v := dirnameLoop (rev (chars path)) (Js.length path - 1)
               (mkDir (-1) true) in
    if d_end v =? -1 then (if hasRoot then "/" else ".")
    else if hasRoot && (d_end v =? 1) then "//"
    else Js.slice path 0 (d_end v).

(** *** extname *)

Record ExtVars := mkExt {
  startDot : Z; startPart : Z; e_end : Z;
  e_matchedSlash : bool; preDotState : Z }.

Fixpoint extnameLoop (rpath : list ascii) (i : Z) (v : ExtVars) : ExtVars :=
  match rpath with
  | [] => v
  | code :: rest =>
      if isSlash code then
        if negb (e_matchedSlash v)
        then mkExt (startDot v) (i + 1) (e_end v) (e_matchedSlash v)
                   (preDotState v)
        else extnameLoop rest (i - 1) v
      else
        let v1 :=
          if e_end v =? -1
          then mkExt (startDot v) (startPart v) (i + 1) false (preDotState v)
          else v in
        let v2 :=
          if isDot code then
            if startDot v1 =? -1
            then mkExt i (startPart v1) (e_end v1) (e_matchedSlash v1)
                       (preDotState v1)
            else if negb (preDotState v1 =? 1)
            then mkExt (startDot v1) (startPart v1) (e_end v1)
                       (e_matchedSlash v1) 1
            else v1
          else if negb (startDot v1 =? -1)
          then mkExt (startDot v1) (startPart v1) (e_end v1)
                     (e_matchedSlash v1) (-1)
          else v1 in
        extnameLoop rest (i - 1) v2
  end.

Definition extname (path : string) : string :=
  let v := extnameLoop (rev (chars path)) (Js.length path - 1)
             (mkExt (-1) 0 (-1) true 0) in
  if (startDot v =? -1)
     || (e_end v =? -1)
     || (preDotState v =? 0)
     || ((preDotState v =? 1)
         && (startDot v =? e_end v - 1)
         && (startDot v =? startPart v + 1))
  then ""
  else Js.slice path (startDot v) (e_end v).

(** *** basename with an extension argument *)

Record BaseVars := mkBase {
  b_start : Z; b_end : Z; b_matchedSlash : bool;
  extIdx : Z; firstNonSlashEnd : Z }.

(** [code === ext.charCodeAt(extIdx)] *)
Definition extCharIs (ext : string) (k : Z) (code : ascii) : bool :=
  if k <? 0 then false
  else match String.get (Z.to_nat k) ext with
       | Some c => Ascii.eqb code c
       | None => false
       end.

(** The loop of [basename] when a non-empty [ext] no longer than the
    path is given. *)
Fixpoint basenameExtLoop (ext : string) (rpath : list ascii) (i : Z)
    (v : BaseVars) : BaseVars :=
  match rpath with
  | [] => v
  | code :: rest =>
      if isSlash code then
        if negb (b_matchedSlash v)
        then mkBase (i + 1) (b_end v) (b_matchedSlash v) (extIdx v)
                    (firstNonSlashEnd v)
        else basenameExtLoop ext rest (i - 1) v
      else
        let v1 :=
          if firstNonSlashEnd v =? -1
          then mkBase (b_start v) (b_end v) false (extIdx v) (i + 1)
          else v in
        let v2 :=
          if 0 <=? extIdx v1 then
            if extCharIs ext (extIdx v1) code then
              if extIdx v1 - 1 =? -1
              then mkBase (b_start v1) i (b_matchedSlash v1)
                          (extIdx v1 - 1) (firstNonSlashEnd v1)
              else mkBase (b_start v1) (b_end v1) (b_matchedSlash v1)
                          (extIdx v1 - 1) (firstNonSlashEnd v1)
            else mkBase (b_start v1) (firstNonSlashEnd v1)
                        (b_matchedSlash v1) (-1) (firstNonSlashEnd v1)
          else v1 in
        basenameExtLoop ext rest (i - 1) v2
  end.

(** The loop of [basename] without a usable extension. *)
Fixpoint basenameLoop (rpath : list ascii) (i : Z) (v : BaseVars)
    : BaseVars :=
  match rpath with
  | [] => v
  | code :: rest =>
      if isSlash code then
        if negb (b_matchedSlash v)
        then mkBase (i + 1) (b_end v) (b_matchedSlash v) (extIdx v)
                    (firstNonSlashEnd v)
        else basenameLoop rest (i - 1) v
      else if b_end v =? -1
      then basenameLoop rest (i - 1)
             (mkBase (b_start v) (i + 1) false (extIdx v)
                     (firstNonSlashEnd v))
      else basenameLoop rest (i - 1) v
  end.

Definition basename (path ext : string) : string :=
  if (0 <? Js.length ext) && (Js.length ext <=? Js.length path) then
    if (Js.length ext =? Js.length path) && String.eqb ext path then ""
    else
      let v := basenameExtLoop ext (rev (chars path)) (Js.length path - 1)
                 (mkBase 0 (-1) true (Js.length ext - 1) (-1)) in
      let e :=
        if b_start v =? b_end v then firstNonSlashEnd v
        else if b_end v =? -1 then Js.length path
        else b_end v in
      Js.slice path (b_start v) e
  else
    let v := basenameLoop (rev (chars path)) (Js.length path - 1)
               (mkBase 0 (-1) true (-1) (-1)) in
    if b_end v =? -1 then ""
    else Js.slice path (b_start v) (b_end v).

End NodePath.

(** ** Shapes of paths

    The vocabulary in which the facts about [NodePath] are stated: a
    path is cut into the part up to and including its last '/' and the
    name after it. *)

Module PathShape.

Import NodePath.

(** No '/' in [s]. *)
Definition slashFree (s : string) : bool :=
  forallb (fun c => negb (isSlash c)) (chars s).

(** No '.' in [s]. *)
Definition dotFree (s : string) : bool :=
  forallb (fun c => negb (isDot c)) (chars s).

(** A name as a directory listing gives it: not empty, no '/', and not
    one of the entries "." and "..". *)
Definition fileName (s : string) : bool :=
  negb (s =? "")%string && slashFree s
  && negb (s =? ".")%string && negb (s =? "..")%string.

(** The part of a path before its last component: empty, or ending in
    '/'. *)
Definition dirPart (pre : string) : bool :=
  match rev (chars pre) with
  | [] => true
  | c :: _ => isSlash c
  end.

(** The loop of [normalizeStringPosix] over the characters [cs] from
    index [i] on, without the step the loop adds after the last
    character. *)
Fixpoint normFold (path : string) (allowAboveRoot : bool)
    (cs : list ascii) (i : Z) (v : NormVars) : NormVars :=
  match cs with
  | [] => v
  | c :: cs' =>
      normFold path allowAboveRoot cs' (i + 1)
        (if isSlash c then normSlash path allowAboveRoot i v
         else normChar c v)
  end.

(** [res] when [normalizeStringPosix] has read the directory part
    [pre]. *)
Definition normPrefix (pre : string) (allowAboveRoot : bool) : string :=
  res (normFold pre allowAboveRoot (chars pre) 0 (mkNorm "" (-1) 0)).

(** What [normalize] turns the directory part [pre] into, in front of
    a file name. *)
Definition dirPrefix (pre : string) : string :=
  let r := normPrefix pre (negb (firstIsSlash pre)) in
  (if firstIsSlash pre then "/" else "")
  ++ (if 0 <? Js.length r then r ++ "/" else "").

(** What [join] puts in front of a file name joined to [dir]. *)
Definition joinPrefix (dir : string) : string :=
  if 0 <? Js.length dir then dirPrefix (dir ++ "/") else "".

(** What [dirname] returns for a path with the directory part [pre]
    and a name behind it. *)
Definition dirOf (pre : string) : string :=
  if Js.length pre =? 0 then "."
  else if Js.length pre =? 1 then "/"
  else if firstIsSlash pre && (Js.length pre =? 2) then "//"
  else Js.slice pre 0 (Js.length pre - 1).

(** The directory part [d1/d2/.../dk/] made of the names [dirs]. *)
Fixpoint dirString (dirs : list string) : string :=
  match dirs with
  | [] => ""
  | d :: ds => d ++ "/" ++ dirString ds
  end.

(** [res] of [normalizeStringPosix] after one more name. *)
Definition joinRes (r x : string) : string :=
  if 0 <? Js.length r then r ++ "/" ++ x else x.

(** [res] with the '/' that separates it from the next name. *)
Definition slashed (r : string) : string :=
  if 0 <? Js.length r then r ++ "/" else "".

End PathShape.

(** ** Options *)

(** The engine options that [parseArguments] can set.  A flag that is
    absent from the JavaScript object is [false] here; [filename] is
    added by [runWithCode]. *)
Record Options := mkOptions {
  filename : option string;
  literate : bool;
  keepCommonJS : bool;
  forceDefaultExport : bool;
  safeImportFunctionIdentifiers : option (list string);
  preferConst : bool;
  looseDefaultParams : bool;
  looseForExpressions : bool;
  looseForOf : bool;
  looseIncludes : bool;
  looseComparisonNegation : bool;
  allowInvalidConstructors : bool;
  enableBabelConstructorWorkaround : bool }.

(** [let baseOptions = {}] *)
Definition emptyOptions : Options :=
  mkOptions None false false false None false false false false false
            false false false.

Record CLIOptions := mkCLIOptions {
  paths : list string;
  baseOptions : Options;
  modernizeJS_flag : bool }.

Definition setFilename (name : string) (o : Options) : Options :=
  mkOptions (Some name) (literate o) (keepCommonJS o) (forceDefaultExport o)
    (safeImportFunctionIdentifiers o) (preferConst o) (looseDefaultParams o)
    (looseForExpressions o) (looseForOf o) (looseIncludes o)
    (looseComparisonNegation o) (allowInvalidConstructors o)
    (enableBabelConstructorWorkaround o).

Definition setLiterate (o : Options) : Options :=
  mkOptions (filename o) true (keepCommonJS o) (forceDefaultExport o)
    (safeImportFunctionIdentifiers o) (preferConst o) (looseDefaultParams o)
    (looseForExpressions o) (looseForOf o) (looseIncludes o)
    (looseComparisonNegation o) (allowInvalidConstructors o)
    (enableBabelConstructorWorkaround o).

Definition setKeepCommonJS (o : Options) : Options :=
  mkOptions (filename o) (literate o) true (forceDefaultExport o)
    (safeImportFunctionIdentifiers o) (preferConst o) (looseDefaultParams o)
    (looseForExpressions o) (looseForOf o) (looseIncludes o)
    (looseComparisonNegation o) (allowInvalidConstructors o)
    (enableBabelConstructorWorkaround o).

Definition setForceDefaultExport (o : Options) : Options :=
  mkOptions (filename o) (literate o) (keepCommonJS o) true
    (safeImportFunctionIdentifiers o) (preferConst o) (looseDefaultParams o)
    (looseForExpressions o) (looseForOf o) (looseIncludes o)
    (looseComparisonNegation o) (allowInvalidConstructors o)
    (enableBabelConstructorWorkaround o).

Definition setSafeImportFunctionIdentifiers (ids : list string) (o : Options)
    : Options :=
  mkOptions (filename o) (literate o) (keepCommonJS o) (forceDefaultExport o)
    (Some ids) (preferConst o) (looseDefaultParams o)
    (looseForExpressions o) (looseForOf o) (looseIncludes o)
    (looseComparisonNegation o) (allowInvalidConstructors o)
    (enableBabelConstructorWorkaround o).

Definition setPreferConst (o : Options) : Options :=
  mkOptions (filename o) (literate o) (keepCommonJS o) (forceDefaultExport o)
    (safeImportFunctionIdentifiers o) true (looseDefaultParams o)
    (looseForExpressions o) (looseForOf o) (looseIncludes o)
    (looseComparisonNegation o) (allowInvalidConstructors o)
    (enableBabelConstructorWorkaround o).

Definition setLooseDefaultParams (o : Options) : Options :=
  mkOptions (filename o) (literate o) (keepCommonJS o) (forceDefaultExport o)
    (safeImportFunctionIdentifiers o) (preferConst o) true
    (looseForExpressions o) (looseForOf o) (looseIncludes o)
    (looseComparisonNegation o) (allowInvalidConstructors o)
    (enableBabelConstructorWorkaround o).

Definition setLooseForExpressions (o : Options) : Options :=
  mkOptions (filename o) (literate o) (keepCommonJS o) (forceDefaultExport o)
    (safeImportFunctionIdentifiers o) (preferConst o) (looseDefaultParams o)
    true (looseForOf o) (looseIncludes o)
    (looseComparisonNegation o) (allowInvalidConstructors o)
    (enableBabelConstructorWorkaround o).

Definition setLooseForOf (o : Options) : Options :=
  mkOptions (filename o) (literate o) (keepCommonJS o) (forceDefaultExport o)
    (safeImportFunctionIdentifiers o) (preferConst o) (looseDefaultParams o)
    (looseForExpressions o) true (looseIncludes o)
    (looseComparisonNegation o) (allowInvalidConstructors o)
    (enableBabelConstructorWorkaround o).

Definition setLooseIncludes (o : Options) : Options :=
  mkOptions (filename o) (literate o) (keepCommonJS o) (forceDefaultExport o)
    (safeImportFunctionIdentifiers o) (preferConst o) (looseDefaultParams o)
    (looseForExpressions o) (looseForOf o) true
    (looseComparisonNegation o) (allowInvalidConstructors o)
    (enableBabelConstructorWorkaround o).

Definition setLooseComparisonNegation (o : Options) : Options :=
  mkOptions (filename o) (literate o) (keepCommonJS o) (forceDefaultExport o)
    (safeImportFunctionIdentifiers o) (preferConst o) (looseDefaultParams o)
    (looseForExpressions o) (looseForOf o) (looseIncludes o)
    true (allowInvalidConstructors o)
    (enableBabelConstructorWorkaround o).

Definition setAllowInvalidConstructors (o : Options) : Options :=
  mkOptions (filename o) (literate o) (keepCommonJS o) (forceDefaultExport o)
    (safeImportFunctionIdentifiers o) (preferConst o) (looseDefaultParams o)
    (looseForExpressions o) (looseForOf o) (looseIncludes o)
    (looseComparisonNegation o) true
    (enableBabelConstructorWorkaround o).

Definition setEnableBabelConstructorWorkaround (o : Options) : Options :=
  mkOptions (filename o) (literate o) (keepCommonJS o) (forceDefaultExport o)
    (safeImportFunctionIdentifiers o) (preferConst o) (looseDefaultParams o)
    (looseForExpressions o) (looseForOf o) (looseIncludes o)
    (looseComparisonNegation o) (allowInvalidConstructors o) true.

(** ** parseArguments *)

(** What [parseArguments] does: it returns the options, or leaves the
    process through [process.exit] (after the usage text for -h, after
    an error line for an unknown option), or throws the TypeError of
    [args[i].split] when --safe-import-function-identifiers is the last
    argument. *)
Inductive Parsed :=
| ParsedOptions (options : CLIOptions)
| ParsedUsage
| ParsedUnrecognized (line : string)
| ParsedTypeError.

(** The loop [for (let i = 0; i < args.length; i++)] over the arguments
    from index [i] on; [paths] is kept in [push] order. *)
Fixpoint parseLoop (args : list string) (paths : list string)
    (baseOptions : Options) (modernizeJS : bool) : Parsed :=
  match args with
  | [] => ParsedOptions (mkCLIOptions paths baseOptions modernizeJS)
  | arg :: rest =>
      if (arg =? "-h")%string || (arg =? "--help")%string then ParsedUsage
      else if (arg =? "--modernize-js")%string then
        parseLoop rest paths baseOptions true
      else if (arg =? "--literate")%string then
        parseLoop rest paths (setLiterate baseOptions) modernizeJS
      else if (arg =? "--keep-commonjs")%string then
        parseLoop rest paths (setKeepCommonJS baseOptions) modernizeJS
      else if (arg =? "--force-default-export")%string then
        parseLoop rest paths (setForceDefaultExport baseOptions) modernizeJS
      else if (arg =? "--safe-import-function-identifiers")%string then
        match rest with
        | [] => ParsedTypeError
        | ids :: rest' =>
            parseLoop rest' paths
              (setSafeImportFunctionIdentifiers (Js.splitComma ids)
                                                baseOptions)
              modernizeJS
        end
      else if (arg =? "--prefer-const")%string then
        parseLoop rest paths (setPreferConst baseOptions) modernizeJS
      else if (arg =? "--loose-default-params")%string then
        parseLoop rest paths (setLooseDefaultParams baseOptions) modernizeJS
      else if (arg =? "--loose-for-expressions")%string then
        parseLoop rest paths (setLooseForExpressions baseOptions) modernizeJS
      else if (arg =? "--loose-for-of")%string then
        parseLoop rest paths (setLooseForOf baseOptions) modernizeJS
      else if (arg =? "--loose-includes")%string then
        parseLoop rest paths (setLooseIncludes baseOptions) modernizeJS
      else if (arg =? "--loose-comparison-negation")%string then
        parseLoop rest paths (setLooseComparisonNegation baseOptions)
                  modernizeJS
      else if (arg =? "--allow-invalid-constructors")%string then
        parseLoop rest paths (setAllowInvalidConstructors baseOptions)
                  modernizeJS
      else if (arg =? "--enable-babel-constructor-workaround")%string then
        parseLoop rest paths
                  (setEnableBabelConstructorWorkaround baseOptions)
                  modernizeJS
      else if Js.startsWith arg "-" then
        ParsedUnrecognized ("Error: unrecognized option '" ++ arg ++ "'")
      else parseLoop rest (paths ++ [arg]) baseOptions modernizeJS
  end.

Definition parseArguments (args : list string) : Parsed :=
  parseLoop args [] emptyOptions false.

(** ** Extension filter and output path *)

(** The predicate passed to [children.filter] in [processDirectory]. *)
Definition eligible (options : CLIOptions) (child : string) : bool :=
  if modernizeJS_flag options then Js.endsWith child ".js"
  else Js.endsWith child ".coffee"
       || Js.endsWith child ".litcoffee"
       || Js.endsWith child ".coffee.md".

(** First line of [processFile]. *)
Definition extension (path : string) : string :=
  if Js.endsWith path ".coffee.md" then ".coffee.md"
  else NodePath.extname path.

(** Second line of [processFile]. *)
Definition outputPath (path : string) : string :=
  NodePath.join (NodePath.dirname path)
                (NodePath.basename path (extension path)) ++ ".js".

(** ** The driver

    The filesystem, the conversion engine ([convert] and [modernizeJS]
    of ./index) and [PatchError] (./utils/PatchError) are collaborators
    of cli.js: the driver is parametrised by them.  [FS] is the state of
    the filesystem; [stat], [readdir] and [readFile] observe it and
    [writeFile] changes it.  Each answers with the error handed to the
    Node callback ([inl err]) or with its result. *)

Record Stats := mkStats { isDirectory : bool }.

Section Driver.

Variable Err : Type.
Variable FS : Type.
Variable stat : FS -> string -> Err + Stats.
Variable readdir : FS -> string -> Err + list string.
Variable readFile : FS -> string -> Err + string.
Variable writeFile : FS -> string -> string -> FS * option Err.

(** The engine returns [{code}] ([inr code]) or throws ([inl err]). *)
Variable convert : string -> Options -> Err + string.
Variable modernizeJS : string -> Options -> Err + string.
Variable PatchError_detect : Err -> bool.
Variable PatchError_prettyPrint : Err -> string.

(** What the process does that can be observed from outside, in the
    order in which it happens. *)
Inductive Event :=
| Stat (path : string)
| Readdir (path : string)
| ReadFile (path : string)
| WriteFile (path data : string)
| Engine (name code : string)
| ConsoleLog (line : string)
| ConsoleError (line : string)
| StdoutWrite (data : string)
| Usage
| Callback (errors : list Err).

(** A JavaScript exception that nothing catches. *)
Inductive Exn :=
| Raised (err : Err)
| TypeError.

(** How the work of the process comes to its end. *)
Inductive Halt :=
| Drained                 (* processNext found the work list empty *)
| Stalled                 (* a callback returned without scheduling anything *)
| StreamEnd               (* stream mode has written its output *)
| Exited (status : Z)     (* process.exit(status) *)
| Uncaught (e : Exn).     (* an exception left a callback *)

(** The exit status Node reports: 0 when the event loop runs dry, the
    argument of [process.exit], 1 for an uncaught exception. *)
Definition exitStatus (h : Halt) : Z :=
  match h with
  | Drained | Stalled | StreamEnd => 0
  | Exited status => status
  | Uncaught _ => 1
  end.

(** *** runWithCode *)

Inductive CodeResult :=
| Code (resultCode : string)
| CodeExit (line : string)      (* console.error(line); process.exit(1) *)
| CodeThrow (err : Err).

Definition runWithCode (name code : string) (options : CLIOptions)
    : CodeResult :=
  let baseOptions' := setFilename name (baseOptions options) in
  match (if modernizeJS_flag options
         then modernizeJS code baseOptions'
         else convert code baseOptions') with
  | inr resultCode => Code resultCode
  | inl err =>
      if PatchError_detect err
      then CodeExit (name ++ ": " ++ PatchError_prettyPrint err)
      else CodeThrow err
  end.

(** *** runWithPaths *)

(** The variables [errors] and [pending] of the closure of
    [runWithPaths], the filesystem, and the events so far. *)
Record State := mkState {
  pending : list string;
  errors : list Err;
  fs : FS;
  events : list Event }.

(** The result of one callback chain: it ends in a call of
    [processNext] ([Next]) or the process work ends there ([Stop]). *)
Inductive Step :=
| Next (st : State)
| Stop (h : Halt) (st : State).

Definition stateOf (s : Step) : State :=
  match s with
  | Next st => st
  | Stop _ st => st
  end.

Section Paths.

(** The parameters [options] and [callback] of [runWithPaths]; the
    callback is either null ([false]) or a function ([true]), whose call
    is the event [Callback]. *)
Variable options : CLIOptions.
Variable callback : bool.

Definition logEvents (es : list Event) (st : State) : State :=
  mkState (pending st) (errors st) (fs st) (events st ++ es).

(** [errors.push(err)] *)
Definition pushError (err : Err) (st : State) : State :=
  mkState (pending st) (errors st ++ [err]) (fs st) (events st).

(** [pending.unshift(...items)] *)
Definition unshift (items : list string) (st : State) : State :=
  mkState (items ++ pending st) (errors st) (fs st) (events st).

Definition processDirectory (path : string) (st : State) : Step :=
  let st := logEvents [Readdir path] st in
  match readdir (fs st) path with
  | inl err => Next (pushError err st)
  | inr children =>
      Next (unshift (map (fun child => NodePath.join path child)
                         (filter (eligible options) children)) st)
  end.

Definition processFile (path : string) (st : State) : Step :=
  let outputPath := outputPath path in
  let st := logEvents [ConsoleLog (path ++ " → " ++ outputPath)] st in
  let st := logEvents [ReadFile path] st in
  match readFile (fs st) path with
  | inl err => Next (pushError err st)
  | inr data =>
      let st := logEvents [Engine path data] st in
      match runWithCode path data options with
      | CodeExit line => Stop (Exited 1) (logEvents [ConsoleError line] st)
      | CodeThrow err => Stop (Uncaught (Raised err)) st
      | Code resultCode =>
          let st := logEvents [WriteFile outputPath resultCode] st in
          let (fs', werr) := writeFile (fs st) outputPath resultCode in
          let st := mkState (pending st) (errors st) fs' (events st) in
          match werr with
          | Some err => Next (pushError err st)
          | None => Next st
          end
      end
  end.

Definition processPath (path : string) (st : State) : Step :=
  let st := logEvents [Stat path] st in
  match stat (fs st) path with
  | inl err => Stop Stalled (pushError err st)
  | inr info =>
      if isDirectory info then processDirectory path st
      else processFile path st
  end.

(** One call of [processNext], followed up to the next call of
    [processNext] or to the end of the work. *)
Definition processNext (st : State) : Step :=
  match pending st with
  | path :: rest =>
      processPath path (mkState rest (errors st) (fs st) (events st))
  | [] =>
      Stop Drained
           (if callback then logEvents [Callback (errors st)] st else st)
  end.

(** The chain of [processNext] calls; [fuel] bounds their number. *)
Fixpoint drain (fuel : nat) (st : State) : option (Halt * State) :=
  match fuel with
  | O => None
  | S fuel' =>
      match processNext st with
      | Next st' => drain fuel' st'
      | Stop h st' => Some (h, st')
      end
  end.

(** The state after [n] calls of [processNext], as long as the work
    goes on. *)
Fixpoint steps (n : nat) (st : State) : Step :=
  match n with
  | O => Next st
  | S n' =>
      match processNext st with
      | Next st' => steps n' st'
      | Stop h st' => Stop h st'
      end
  end.

(** What classifying [path] on the filesystem [fs0] puts on the work
    list. *)
Definition requeued (fs0 : FS) (path : string) : list string :=
  match stat fs0 path with
  | inr info =>
      if isDirectory info then
        match readdir fs0 path with
        | inr children =>
            map (NodePath.join path) (filter (eligible options) children)
        | inl _ => []
        end
      else []
  | inl _ => []
  end.

End Paths.

(** The path an event classifies or processes: the argument of [stat],
    [readdir] and [readFile] and the file name given to the engine. *)
Definition touched (e : Event) : option string :=
  match e with
  | Stat path | Readdir path | ReadFile path => Some path
  | Engine name _ => Some name
  | _ => None
  end.

(** The paths classified so far, in order: the arguments of [stat]. *)
Fixpoint classified (evs : list Event) : list string :=
  match evs with
  | [] => []
  | Stat path :: evs' => path :: classified evs'
  | _ :: evs' => classified evs'
  end.

Definition eventsOf (r : option (Halt * State)) : list Event :=
  match r with
  | Some (_, st) => events st
  | None => []
  end.

(** The paths that the traversal can come to from the paths given on
    the command line: a given path, or a path already reached joined
    with a name that passes the extension filter. *)
Inductive Reachable (options : CLIOptions) (paths0 : list string)
    : string -> Prop :=
| reach_given (q : string) :
    In q paths0 -> Reachable options paths0 q
| reach_child (d c : string) :
    Reachable options paths0 d ->
    eligible options c = true ->
    Reachable options paths0 (NodePath.join d c).

(** [runWithPaths(paths, options, callback)]: [pending] starts as a copy
    of [paths], [errors] empty, and [processNext] is called. *)
Definition runWithPaths (paths : list string) (options : CLIOptions)
    (callback : bool) (fs0 : FS) (fuel : nat) : option (Halt * State) :=
  drain options callback fuel (mkState paths [] fs0 []).

(** *** runWithStdio *)

(** [data += chunk] for every chunk the input stream delivers before it
    ends. *)
Definition accumulate (chunks : list string) : string :=
  fold_left (fun data chunk => data ++ chunk) chunks "".

Definition runWithStdio (options : CLIOptions) (chunks : list string)
    (fs0 : FS) : Halt * State :=
  let data := accumulate chunks in
  let evs := [Engine "stdin" data] in
  match runWithCode "stdin" data options with
  | Code resultCode =>
      (StreamEnd, mkState [] [] fs0 (evs ++ [StdoutWrite resultCode]))
  | CodeExit line =>
      (Exited 1, mkState [] [] fs0 (evs ++ [ConsoleError line]))
  | CodeThrow err =>
      (Uncaught (Raised err), mkState [] [] fs0 evs)
  end.

(** *** run *)

(** The entry point: [args] are the command line arguments, [fs0] the
    filesystem and [chunks] the contents of the standard input. *)
Definition run (args : list string) (fs0 : FS) (chunks : list string)
    (fuel : nat) : option (Halt * State) :=
  match parseArguments args with
  | ParsedOptions options =>
      match paths options with
      | _ :: _ => runWithPaths (paths options) options false fs0 fuel
      | [] => Some (runWithStdio options chunks fs0)
      end
  | ParsedUsage => Some (Exited 0, mkState [] [] fs0 [Usage])
  | ParsedUnrecognized line =>
      Some (Exited 1, mkState [] [] fs0 [ConsoleError line])
  | ParsedTypeError => Some (Uncaught TypeError, mkState [] [] fs0 [])
  end.

End Driver.

Arguments Stat {Err} path.
Arguments Readdir {Err} path.
Arguments ReadFile {Err} path.
Arguments WriteFile {Err} path data.
Arguments Engine {Err} name code.
Arguments ConsoleLog {Err} line.
Arguments ConsoleError {Err} line.
Arguments StdoutWrite {Err} data.
Arguments Usage {Err}.
Arguments Callback {Err} errors.
Arguments Raised {Err} err.
Arguments TypeError {Err}.
Arguments Drained {Err}.
Arguments Stalled {Err}.
Arguments StreamEnd {Err}.
Arguments Exited {Err} status.
Arguments Uncaught {Err} e.
Arguments mkState {Err FS} pending errors fs events.
Arguments pending {Err FS} s.
Arguments errors {Err FS} s.
Arguments fs {Err FS} s.
Arguments events {Err FS} s.
Arguments Next {Err FS} st.
Arguments Stop {Err FS} h st.
Arguments stateOf {Err FS} s.
Arguments exitStatus {Err} h.
Arguments touched {Err} e.
Arguments classified {Err} evs.
Arguments eventsOf {Err FS} r.

(** ** A small filesystem and engine to run the driver on *)

Module Fixture.

Definition Err := string.

Inductive Node :=
| File (data : string)
| Dir (children : list string).

Definition FS := list (string * Node).

Fixpoint lookup (fs : FS) (path : string) : option Node :=
  match fs with
  | [] => None
  | (p, n) :: fs' => if (p =? path)%string then Some n else lookup fs' path
  end.

Definition stat (fs : FS) (path : string) : Err + Stats :=
  match lookup fs path with
  | None => inl "ENOENT"
  | Some (File _) => inr (mkStats false)
  | Some (Dir _) => inr (mkStats true)
  end.

Definition readdir (fs : FS) (path : string) : Err + list string :=
  match lookup fs path with
  | None => inl "ENOENT"
  | Some (File _) => inl "ENOTDIR"
  | Some (Dir children) => inr children
  end.

Definition readFile (fs : FS) (path : string) : Err + string :=
  match lookup fs path with
  | None => inl "ENOENT"
  | Some (Dir _) => inl "EISDIR"
  | Some (File data) => inr data
  end.

Definition writeFile (fs : FS) (path data : string) : FS * option Err :=
  match lookup fs path with
  | Some (Dir _) => (fs, Some "EISDIR")
  | _ => ((path, File data) :: fs, None)
  end.

(** The engine of the fixture: source text starting with "PATCH" makes
    it throw a patch error, text starting with "BUG" any other error. *)
Definition engine (tag : string) (code : string) (_ : Options)
    : Err + string :=
  if String.prefix "PATCH" code then inl "PatchError: unexpected token"
  else if String.prefix "BUG" code then inl "RangeError"
  else inr (tag ++ code).

Definition convert := engine "/*js*/".
Definition modernizeJS := engine "/*es6*/".
Definition detect (err : Err) : bool := String.prefix "PatchError" err.
Definition prettyPrint (err : Err) : string := err.

Definition run :=
  run Err FS stat readdir readFile writeFile convert modernizeJS
      detect prettyPrint.

Definition runWithPaths :=
  runWithPaths Err FS stat readdir readFile writeFile convert modernizeJS
      detect prettyPrint.

Definition processNext :=
  processNext Err FS stat readdir readFile writeFile convert modernizeJS
      detect prettyPrint.

Definition convertMode : CLIOptions := mkCLIOptions [] emptyOptions false.
Definition modernizeMode : CLIOptions := mkCLIOptions [] emptyOptions true.

(** fileA and fileC exist, fileB does not. *)
Definition fsABC : FS :=
  [("a.coffee", File "a = 1"); ("c.coffee", File "c = 3")].

(** A directory D with x.coffee, y.coffee and a text file, and a file
    z.coffee next to it. *)
Definition fsD : FS :=
  [("D", Dir ["x.coffee"; "notes.txt"; "y.coffee"]);
   ("D/x.coffee", File "x = 1");
   ("D/y.coffee", File "y = 2");
   ("D/notes.txt", File "notes");
   ("z.coffee", File "z = 3")].

(** A directory D whose child sub.coffee is itself a directory. *)
Definition fsNested : FS :=
  [("D", Dir ["sub.coffee"; "lib"]);
   ("D/sub.coffee", Dir ["x.coffee"]);
   ("D/sub.coffee/x.coffee", File "x = 1");
   ("D/lib", Dir ["y.coffee"]);
   ("D/lib/y.coffee", File "y = 2")].

(** The output path of x.coffee is taken by a directory. *)
Definition fsClash : FS :=
  [("x.coffee", File "x = 1"); ("x.js", Dir [])].

(** A directory with a file whose whole name is .js. *)
Definition fsHidden : FS :=
  [("D", Dir [".js"]); ("D/.js", File "var a")].

(** The first file does not parse. *)
Definition fsBad : FS :=
  [("bad.coffee", File "PATCH a ="); ("good.coffee", File "b = 2");
   ("bug.coffee", File "BUG")].

(** The state in which the run over x.coffee on [fsClash] ends. *)
Definition clashEnd : State Err FS :=
  mkState [] ["EISDIR"] fsClash
    [Stat "x.coffee"; ConsoleLog "x.coffee → x.js"; ReadFile "x.coffee";
     Engine "x.coffee" "x = 1"; WriteFile "x.js" "/*js*/x = 1"].

End Fixture.

(** ** The options and the usage text *)

(** The case labels of the [switch] of [parseArguments]. *)
Definition optionNames : list string :=
  ["-h"; "--help"; "--modernize-js"; "--literate"; "--keep-commonjs";
   "--force-default-export"; "--safe-import-function-identifiers";
   "--prefer-const"; "--loose-default-params"; "--loose-for-expressions";
   "--loose-for-of"; "--loose-includes"; "--loose-comparison-negation";
   "--allow-invalid-constructors"; "--enable-babel-constructor-workaround"].

(** The double quote character, for the lines of the usage text that
    contain one. *)
Definition dquote : string := String (Ascii.ascii_of_nat 34) "".

(** The lines that [usage()] logs, one per [console.log]; [argv1] is
    [process.argv[1]], whose base name replaces %s.  The event [Usage]
    of a run stands for these lines. *)
Definition usage (argv1 : string) : list string :=
  let exe := NodePath.basename argv1 "" in
  [exe ++ " [OPTIONS] PATH [PATH …]";
   exe ++ " [OPTIONS] < INPUT";
   "";
   "Move your CoffeeScript source to JavaScript using modern syntax.";
   "";
   "OPTIONS";
   "";
   "  -h, --help               Display this help message.";
   "  --modernize-js           Treat the input as JavaScript and only run the";
   "                           JavaScript-to-JavaScript transforms, modifying the file(s)";
   "                           in-place.";
   "  --literate               Treat the input file as Literate CoffeeScript.";
   "  --keep-commonjs          Do not convert require and module.exports to import and export.";
   "  --force-default-export   When converting to export, use a single "
     ++ dquote ++ "export default" ++ dquote ++ " rather ";
   "                           than trying to generate named imports where possible.";
   "  --safe-import-function-identifiers";
   "                           Comma-separated list of function names that may safely be in the ";
   "                           import/require section of the file. All other function calls ";
   "                           will disqualify later requires from being converted to imports.";
   "  --prefer-const           Use the const keyword for variables when possible.";
   "  --loose-default-params   Convert CS default params to JS default params.";
   "  --loose-for-expressions  Do not wrap expression loop targets in Array.from.";
   "  --loose-for-of           Do not wrap JS for...of loop targets in Array.from.";
   "  --loose-includes         Do not wrap in Array.from when converting in to includes.";
   "  --loose-comparison-negation";
   "                           Allow unsafe simplifications like `!(a > b)` to `a <= b`.";
   "  --allow-invalid-constructors";
   "                           Don't error when constructors use this before super or omit";
   "                           the super call in a subclass.";
   "  --enable-babel-constructor-workaround";
   "                           Use a hacky Babel-specific workaround to allow this before";
   "                           super in constructors. Also works when using TypeScript.";
   "";
   "EXAMPLES";
   "";
   "  # Convert a .coffee file to a .js file.";
   "  $ decaffeinate index.coffee";
   "";
   "  # Pipe an example from the command-line.";
   "  $ echo " ++ dquote ++ "a = 1" ++ dquote ++ " | decaffeinate";
   "";
   "  # On OS X this may come in handy:";
   "  $ pbpaste | decaffeinate | pbcopy";
   "";
   "  # Process everything in a directory.";
   "  $ decaffeinate src/";
   "";
   "  # Redirect input from a file.";
   "  $ decaffeinate < index.coffee"].

(** [sub] occurs in [s], the test of [s.includes(sub)]. *)
Definition includes (s sub : string) : bool :=
  match String.index 0 sub s with
  | Some _ => true
  | None => false
  end.

(** No ',' in [s]. *)
Definition commaFree (s : string) : bool :=
  forallb (fun c => negb (Ascii.eqb c ",")) (list_ascii_of_string s).

(** ** One call of processNext, case by case *)

Section TraceShapes.

Variable Err : Type.
Variable FS : Type.
Variable stat : FS -> string -> Err + Stats.
Variable readdir : FS -> string -> Err + list string.
Variable readFile : FS -> string -> Err + string.
Variable writeFile : FS -> string -> string -> FS * option Err.
Variable convert : string -> Options -> Err + string.
Variable modernizeJS : string -> Options -> Err + string.
Variable PatchError_detect : Err -> bool.
Variable PatchError_prettyPrint : Err -> string.
Variable options : CLIOptions.

(** The engine entry point that [runWithCode] calls under the options
    [o]. *)
Definition engineOf (o : CLIOptions) : string -> Options -> Err + string :=
  if modernizeJS_flag o then modernizeJS else convert.

(** The events of one file, up to the call of the engine. *)
Definition fileEvents (path data : string) : list (Event Err) :=
  [Stat path; ConsoleLog (path ++ " → " ++ outputPath path);
   ReadFile path; Engine path data].

(** What one call of [processNext] does when [path] is the head of the
    work list and [rest] is behind it: one case for each way through
    [processPath], [processDirectory] and [processFile]. *)
Inductive StepCase (st : State Err FS) (path : string) (rest : list string)
    : Step Err FS -> Prop :=
| case_stat_error err :
    stat (fs st) path = inl err ->
    StepCase st path rest
      (Stop Stalled (mkState rest (errors st ++ [err]) (fs st)
                       (events st ++ [Stat path])))
| case_readdir_error info err :
    stat (fs st) path = inr info -> isDirectory info = true ->
    readdir (fs st) path = inl err ->
    StepCase st path rest
      (Next (mkState rest (errors st ++ [err]) (fs st)
               (events st ++ [Stat path; Readdir path])))
| case_directory info children :
    stat (fs st) path = inr info -> isDirectory info = true ->
    readdir (fs st) path = inr children ->
    StepCase st path rest
      (Next (mkState
               (map (NodePath.join path) (filter (eligible options) children)
                ++ rest)
               (errors st) (fs st)
               (events st ++ [Stat path; Readdir path])))
| case_read_error info err :
    stat (fs st) path = inr info -> isDirectory info = false ->
    readFile (fs st) path = inl err ->
    StepCase st path rest
      (Next (mkState rest (errors st ++ [err]) (fs st)
               (events st
                ++ [Stat path; ConsoleLog (path ++ " → " ++ outputPath path);
                    ReadFile path])))
| case_patch_error info data err :
    stat (fs st) path = inr info -> isDirectory info = false ->
    readFile (fs st) path = inr data ->
    engineOf options data (setFilename path (baseOptions options)) = inl err ->
    PatchError_detect err = true ->
    StepCase st path rest
      (Stop (Exited 1)
         (mkState rest (errors st) (fs st)
            (events st ++ fileEvents path data
             ++ [ConsoleError (path ++ ": " ++ PatchError_prettyPrint err)])))
| case_other_error info data err :
    stat (fs st) path = inr info -> isDirectory info = false ->
    readFile (fs st) path = inr data ->
    engineOf options data (setFilename path (baseOptions options)) = inl err ->
    PatchError_detect err = false ->
    StepCase st path rest
      (Stop (Uncaught (Raised err))
         (mkState rest (errors st) (fs st)
            (events st ++ fileEvents path data)))
| case_written info data code fs' :
    stat (fs st) path = inr info -> isDirectory info = false ->
    readFile (fs st) path = inr data ->
    engineOf options data (setFilename path (baseOptions options)) = inr code ->
    writeFile (fs st) (outputPath path) code = (fs', None) ->
    StepCase st path rest
      (Next (mkState rest (errors st) fs'
               (events st ++ fileEvents path data
                ++ [WriteFile (outputPath path) code])))
| case_write_error info data code fs' err :
    stat (fs st) path = inr info -> isDirectory info = false ->
    readFile (fs st) path = inr data ->
    engineOf options data (setFilename path (baseOptions options)) = inr code ->
    writeFile (fs st) (outputPath path) code = (fs', Some err) ->
    StepCase st path rest
      (Next (mkState rest (errors st ++ [err]) fs'
               (events st ++ fileEvents path data
                ++ [WriteFile (outputPath path) code]))).

(** The filesystem after the writes among [evs], in order, on [fs0]. *)
Definition replayWrites (evs : list (Event Err)) (fs0 : FS) : FS :=
  fold_left (fun fs1 e => match e with
                          | WriteFile path data => fst (writeFile fs1 path data)
                          | _ => fs1
                          end) evs fs0.

(** Every write among [evs] ends an unbroken sequence stat, log line,
    read, engine call, write for one path, and writes what the engine
    returned at the output path of that path. *)
Definition Justified (evs : list (Event Err)) : Prop :=
  forall out code,
    In (WriteFile out code) evs ->
    exists before after path data,
      evs = (before ++ fileEvents path data
             ++ WriteFile out code :: after)%list
      /\ out = outputPath path
      /\ engineOf options data (setFilename path (baseOptions options))
         = inr code.

End TraceShapes.

(** ** A filesystem of plain files *)

Module FlatFixture.

Definition Err := string.

(** The files written so far, last first. *)
Definition FS := list (string * string).

Definition stat (_ : FS) (_ : string) : Err + Stats := inr (mkStats false).
Definition readdir (_ : FS) (_ : string) : Err + list string := inl "ENOTDIR".
Definition readFile (_ : FS) (path : string) : Err + string :=
  if String.prefix "locked" path then inl "EACCES" else inr ("# " ++ path).
Definition writeFile (fs : FS) (path data : string) : FS * option Err :=
  ((path, data) :: fs, None).
Definition convert (code : string) (_ : Options) : Err + string :=
  inr ("/*js*/" ++ code).
Definition modernizeJS (code : string) (_ : Options) : Err + string :=
  inr ("/*es6*/" ++ code).
Definition detect (_ : Err) : bool := false.
Definition prettyPrint (err : Err) : string := err.

Definition runWithPaths :=
  runWithPaths Err FS stat readdir readFile writeFile convert modernizeJS
      detect prettyPrint.

End FlatFixture.

(** ** End states of runs on the fixtures *)

Module FixtureRuns.

(** The run over a.coffee and c.coffee on [Fixture.fsABC], with a
    completion callback. *)
Definition abcDrained : State Fixture.Err Fixture.FS :=
  mkState [] []
    (("c.js", Fixture.File "/*js*/c = 3")
     :: ("a.js", Fixture.File "/*js*/a = 1") :: Fixture.fsABC)
    [Stat "a.coffee"; ConsoleLog "a.coffee → a.js";
     ReadFile "a.coffee"; Engine "a.coffee" "a = 1";
     WriteFile "a.js" "/*js*/a = 1";
     Stat "c.coffee"; ConsoleLog "c.coffee → c.js";
     ReadFile "c.coffee"; Engine "c.coffee" "c = 3";
     WriteFile "c.js" "/*js*/c = 3"; Callback []].

(** The run over a.coffee, b.coffee and c.coffee on [Fixture.fsABC],
    where b.coffee is missing. *)
Definition abcStalled : State Fixture.Err Fixture.FS :=
  mkState ["c.coffee"] ["ENOENT"]
    (("a.js", Fixture.File "/*js*/a = 1") :: Fixture.fsABC)
    [Stat "a.coffee"; ConsoleLog "a.coffee → a.js";
     ReadFile "a.coffee"; Engine "a.coffee" "a = 1";
     WriteFile "a.js" "/*js*/a = 1"; Stat "b.coffee"].

End FixtureRuns.

(** ** Proof steps for traces *)

(** No completion callback among old events and a few new ones. *)
Ltac not_in_new Hold :=
  let es := fresh "es" in
  let Hin := fresh "Hin" in
  intros es Hin; apply in_app_or in Hin; destruct Hin as [Hin | Hin];
  [exact (Hold es Hin)
  | cbn in Hin;
    repeat (destruct Hin as [Hin | Hin]; [discriminate |]); exact Hin].

(** No write among a few events. *)
Ltac no_write :=
  let out := fresh "out" in
  let code := fresh "code" in
  let Hin := fresh "Hin" in
  intros out code Hin; cbn in Hin;
  repeat (destruct Hin as [Hin | Hin]; [discriminate |]); exact Hin.

(** ** The path functions on the examples of Node's documentation

    The transcription of [NodePath] gives the results that Node's
    documentation and test suite list for the POSIX functions. *)

Example join_conformance :
  NodePath.join "/foo" "../../../bar" = "/bar"
  /\ NodePath.join "foo" "../../../bar" = "../../bar"
  /\ NodePath.join "foo/x" "./bar" = "foo/x/bar"
  /\ NodePath.join "foo/x/" "./bar" = "foo/x/bar"
  /\ NodePath.join "." "./" = "./"
  /\ NodePath.join "" "" = "."
  /\ NodePath.join "foo" "" = "foo"
  /\ NodePath.join "" "foo" = "foo"
  /\ NodePath.join "foo" "/bar" = "foo/bar"
  /\ NodePath.join "/" ".." = "/"
  /\ NodePath.join "/" "//foo" = "/foo".
Proof. vm_compute. repeat split. Qed.

Example normalize_conformance :
  NodePath.normalize "./fixtures///b/../b/c.js" = "fixtures/b/c.js"
  /\ NodePath.normalize "/foo/../../../bar" = "/bar"
  /\ NodePath.normalize "a//b//../b" = "a/b"
  /\ NodePath.normalize "a//b//./c" = "a/b/c"
  /\ NodePath.normalize "a//b//." = "a/b"
  /\ NodePath.normalize "/a/b/c/../../../x/y/z" = "/x/y/z"
  /\ NodePath.normalize "///..//./foo/.//bar" = "/foo/bar"
  /\ NodePath.normalize "" = ".".
Proof. vm_compute. repeat split. Qed.

Example dirname_conformance :
  NodePath.dirname "/a/b/" = "/a"
  /\ NodePath.dirname "/a/b" = "/a"
  /\ NodePath.dirname "/a" = "/"
  /\ NodePath.dirname "" = "."
  /\ NodePath.dirname "/" = "/"
  /\ NodePath.dirname "////" = "/"
  /\ NodePath.dirname "//a" = "//"
  /\ NodePath.dirname "foo" = ".".
Proof. vm_compute. repeat split. Qed.

Example basename_conformance :
  NodePath.basename "basename.ext" ".ext" = "basename"
  /\ NodePath.basename ".js" ".js" = ""
  /\ NodePath.basename "/dir/basename.ext" "" = "basename.ext"
  /\ NodePath.basename "basename.ext//" "" = "basename.ext"
  /\ NodePath.basename "aaa/bbb" "/bbb" = "bbb"
  /\ NodePath.basename "aaa/bbb" "a/bbb" = "bbb"
  /\ NodePath.basename "aaa/bbb" "bbb" = "bbb"
  /\ NodePath.basename "aaa/bbb//" "bbb" = "bbb"
  /\ NodePath.basename "aaa/bbb" "bb" = "b"
  /\ NodePath.basename "aaa/bbb" "b" = "bb"
  /\ NodePath.basename "/aaa/" "" = "aaa"
  /\ NodePath.basename "//a" "" = "a"
  /\ NodePath.basename "a" "a" = "".
Proof. vm_compute. repeat split. Qed.

Example extname_conformance :
  NodePath.extname "index.html" = ".html"
  /\ NodePath.extname "index.coffee.md" = ".md"
  /\ NodePath.extname "index." = "."
  /\ NodePath.extname "index" = ""
  /\ NodePath.extname ".index" = ""
  /\ NodePath.extname ".index.md" = ".md"
  /\ NodePath.extname "/path.to/file" = ""
  /\ NodePath.extname "/path/to/..ext" = ".ext"
  /\ NodePath.extname "/path/to/.." = ""
  /\ NodePath.extname "..file" = ".file"
  /\ NodePath.extname "..." = "."
  /\ NodePath.extname "file.ext//" = ".ext"
  /\ NodePath.extname "file.//" = ".".
Proof. vm_compute. repeat split. Qed.

(** ** Facts about strings *)

Lemma append_nil_r (s : string) : s ++ "" = s.
Proof. induction s as [| c s IH]; cbn; [reflexivity | now rewrite IH]. Qed.

Lemma append_assoc (a b c : string) : (a ++ b) ++ c = a ++ (b ++ c).
Proof. induction a as [| x a IH]; cbn; [reflexivity | now rewrite IH]. Qed.

Lemma append_inv_head (a x y : string) : a ++ x = a ++ y -> x = y.
Proof.
  induction a as [| c a IH]; cbn; intros H; [exact H |].
  injection H as H. exact (IH H).
Qed.

Lemma str_length_app (a b : string) :
  String.length (a ++ b) = (String.length a + String.length b)%nat.
Proof. induction a as [| c a IH]; cbn; [reflexivity | now rewrite IH]. Qed.

Lemma js_length_app (a b : string) :
  Js.length (a ++ b) = Js.length a + Js.length b.
Proof. unfold Js.length. rewrite str_length_app. lia. Qed.

Lemma js_length_nonneg (a : string) : 0 <= Js.length a.
Proof. unfold Js.length. lia. Qed.

Lemma js_length_zero (a : string) : Js.length a = 0 -> a = "".
Proof. destruct a; [reflexivity | unfold Js.length; cbn; lia]. Qed.

Lemma chars_app (a b : string) :
  NodePath.chars (a ++ b) = (NodePath.chars a ++ NodePath.chars b)%list.
Proof.
  unfold NodePath.chars.
  induction a as [| c a IH]; cbn; [reflexivity | now rewrite IH].
Qed.

Lemma chars_length (a : string) :
  Z.of_nat (List.length (NodePath.chars a)) = Js.length a.
Proof.
  unfold NodePath.chars, Js.length. f_equal.
  induction a as [| c a IH]; cbn; [reflexivity | now rewrite IH].
Qed.

Lemma substring_zero_length (n : nat) (s : string) : substring n 0 s = "".
Proof.
  revert n. induction s as [| c s IH]; intros [| n]; cbn; auto.
Qed.

Lemma substring_app_l (n m : nat) (a b : string) :
  (n + m <= String.length a)%nat ->
  substring n m (a ++ b) = substring n m a.
Proof.
  revert n m. induction a as [| c a IH]; intros n m H; cbn in H.
  - assert (n = 0%nat) by lia. assert (m = 0%nat) by lia. subst.
    cbn. apply substring_zero_length.
  - destruct n as [| n]; cbn.
    + destruct m as [| m]; [reflexivity |].
      f_equal. apply IH. lia.
    + apply IH. lia.
Qed.

Lemma substring_skip (n m : nat) (a b : string) :
  substring (String.length a + n) m (a ++ b) = substring n m b.
Proof. induction a as [| c a IH]; cbn; [reflexivity | exact IH]. Qed.

Lemma substring_whole (a : string) : substring 0 (String.length a) a = a.
Proof. induction a as [| c a IH]; cbn; [reflexivity | now rewrite IH]. Qed.

Lemma slice_prefix (a b : string) (x y : Z) :
  0 <= x <= y -> y <= Js.length a ->
  Js.slice (a ++ b) x y = Js.slice a x y.
Proof.
  intros Hx Hy. unfold Js.slice. rewrite js_length_app.
  pose proof (js_length_nonneg b) as Hb.
  destruct (x <? 0) eqn:Ex; [lia |]. destruct (y <? 0) eqn:Ey; [lia |].
  rewrite !Z.min_l by lia.
  apply substring_app_l. unfold Js.length in Hy. lia.
Qed.

Lemma slice_middle (a b c : string) :
  Js.slice (a ++ b ++ c) (Js.length a) (Js.length a + Js.length b) = b.
Proof.
  unfold Js.slice. rewrite !js_length_app.
  pose proof (js_length_nonneg a). pose proof (js_length_nonneg b).
  pose proof (js_length_nonneg c).
  destruct (Js.length a <? 0) eqn:Ea; [lia |].
  destruct (Js.length a + Js.length b <? 0) eqn:Eb; [lia |].
  rewrite !Z.min_l by lia.
  replace (Z.to_nat (Js.length a)) with (String.length a + 0)%nat
    by (unfold Js.length; lia).
  rewrite substring_skip.
  replace (Z.to_nat (Js.length a + Js.length b - Js.length a))
    with (0 + String.length b)%nat by (unfold Js.length; lia).
  rewrite substring_app_l by lia. apply substring_whole.
Qed.

Lemma slice_head (a c : string) : Js.slice (a ++ c) 0 (Js.length a) = a.
Proof.
  pose proof (slice_middle "" a c) as H. cbn in H. exact H.
Qed.

Lemma slice_tail (a b : string) :
  Js.slice (a ++ b) (Js.length a) (Js.length a + Js.length b) = b.
Proof.
  pose proof (slice_middle a b "") as H. rewrite append_nil_r in H. exact H.
Qed.

(** ** Facts about counting in lists *)

Lemma count_occ_filter (p : string -> bool) (l : list string) (c : string) :
  count_occ string_dec (filter p l) c
  = if p c then count_occ string_dec l c else 0%nat.
Proof.
  induction l as [| x l IH]; cbn [filter count_occ].
  - destruct (p c); reflexivity.
  - destruct (p x) eqn:Ex; cbn [count_occ];
      destruct (string_dec x c) as [-> | Hne]; rewrite IH.
    + rewrite Ex. reflexivity.
    + reflexivity.
    + rewrite Ex. reflexivity.
    + reflexivity.
Qed.

Lemma count_occ_map_inj (f : string -> string) (l : list string) (c : string) :
  (forall x, In x l -> f x = f c -> x = c) ->
  count_occ string_dec (map f l) (f c) = count_occ string_dec l c.
Proof.
  induction l as [| x l IH]; intros Hinj; [reflexivity |].
  cbn [map count_occ].
  destruct (string_dec (f x) (f c)) as [E | E],
           (string_dec x c) as [E' | E'].
  - f_equal. apply IH. intros y Hy. apply Hinj. now right.
  - exfalso. apply E', Hinj; [now left | exact E].
  - exfalso. apply E. now rewrite E'.
  - apply IH. intros y Hy. apply Hinj. now right.
Qed.

(** ** Facts about Node's path functions *)

Section PathFacts.

Import NodePath PathShape.

(** *** normalize and join *)

(** Every branch of the '/' step ends with [lastSlash = i; dots = 0]. *)
Lemma normSlash_shape path allow i v :
  lastSlash (normSlash path allow i v) = i /\ dots (normSlash path allow i v) = 0.
Proof.
  unfold normSlash.
  repeat match goal with |- context [if ?b then _ else _] => destruct b end; cbn; auto.
Qed.

Lemma normFold_app path allow cs1 cs2 i v :
  normFold path allow (cs1 ++ cs2) i v
  = normFold path allow cs2 (i + Z.of_nat (List.length cs1)) (normFold path allow cs1 i v).
Proof.
  revert i v. induction cs1 as [| c cs1 IH]; intros i v.
  - cbn. now rewrite Z.add_0_r.
  - cbn [app normFold List.length]. rewrite IH. f_equal. lia.
Qed.

(** The loop is the fold over the characters followed by the step for
    the position after the last character, which is skipped when the
    path ends in '/'. *)
Lemma normLoop_fold path allow cs i code v :
  normLoop path allow cs i code v
  = let v' := normFold path allow cs i v in
    match fold_left (fun _ c => Some c) cs code with
    | Some c => if isSlash c then v'
                else normSlash path allow (i + Z.of_nat (List.length cs)) v'
    | None => normSlash path allow (i + Z.of_nat (List.length cs)) v'
    end.
Proof.
  revert i code v. induction cs as [| c cs IH]; intros i code v.
  - cbn. rewrite Z.add_0_r. reflexivity.
  - cbn [normLoop normFold fold_left List.length]. rewrite IH. cbn zeta.
    replace (i + 1 + Z.of_nat (List.length cs)) with (i + Z.of_nat (S (List.length cs))) by lia.
    reflexivity.
Qed.

Lemma normSlash_prefix P X Y allow i v :
  -1 <= lastSlash v < i -> i <= Js.length P ->
  normSlash (P ++ X) allow i v = normSlash (P ++ Y) allow i v.
Proof.
  intros Hl Hi. unfold normSlash.
  rewrite !(slice_prefix P) by lia. reflexivity.
Qed.

Lemma normChar_lastSlash c v : lastSlash (normChar c v) = lastSlash v.
Proof. unfold normChar. destruct (_ && _); reflexivity. Qed.

Lemma normChar_res c v : res (normChar c v) = res v.
Proof. unfold normChar. destruct (_ && _); reflexivity. Qed.

(** While the loop reads the prefix [P] it does not look beyond it. *)
Lemma normFold_prefix P X Y allow cs i v :
  -1 <= lastSlash v < i ->
  i + Z.of_nat (List.length cs) <= Js.length P ->
  normFold (P ++ X) allow cs i v = normFold (P ++ Y) allow cs i v.
Proof.
  revert i v. induction cs as [| c cs IH]; intros i v Hl Hi; [reflexivity |].
  cbn [normFold]. cbn [List.length] in Hi.
  rewrite (normSlash_prefix P X Y) by lia.
  apply IH; [| lia].
  destruct (isSlash c).
  - destruct (normSlash_shape (P ++ Y) allow i v) as [-> _]. lia.
  - rewrite normChar_lastSlash. lia.
Qed.

(** Characters other than '/' only move the [dots] counter: it counts
    the dots of a component made of dots only, and is -1 otherwise. *)
Lemma normFold_name path allow cs i v :
  forallb (fun c => negb (isSlash c)) cs = true ->
  -1 <= dots v ->
  let v' := normFold path allow cs i v in
  res v' = res v /\ lastSlash v' = lastSlash v
  /\ dots v' = if dots v =? -1 then -1
               else if forallb isDot cs
                    then dots v + Z.of_nat (List.length cs) else -1.
Proof.
  revert i v. induction cs as [| c cs IH]; intros i v Hs Hd.
  - cbn. repeat split. destruct (dots v =? -1) eqn:E; lia.
  - cbn [forallb] in Hs. apply andb_prop in Hs. destruct Hs as [Hc Hs].
    apply negb_true_iff in Hc. cbn [normFold]. rewrite Hc.
    assert (Hd1 : -1 <= dots (normChar c v)).
    { unfold normChar. destruct (_ && _); cbn; lia. }
    destruct (IH (i + 1) (normChar c v) Hs Hd1) as (Hr & Hl & Hdots).
    cbn zeta. rewrite Hr, Hl, Hdots, normChar_res, normChar_lastSlash.
    repeat split. unfold normChar. cbn [forallb List.length].
    destruct (isDot c); cbn [andb].
    + destruct (dots v =? -1) eqn:E; cbn [negb dots].
      * reflexivity.
      * destruct (dots v + 1 =? -1) eqn:E1; [lia |].
        destruct (forallb isDot cs); lia.
    + cbn. destruct (dots v =? -1); reflexivity.
Qed.

Lemma isDot_eq c : isDot c = true -> c = "."%char.
Proof. unfold isDot. apply Ascii.eqb_eq. Qed.

Lemma all_dots_short x :
  forallb isDot (chars x) = true ->
  Js.length x = 1 \/ Js.length x = 2 ->
  x = "." \/ x = "..".
Proof.
  intros Hd Hl. destruct x as [| c [| c' [| c'' x]]]; unfold Js.length in Hl; cbn in Hl.
  - lia.
  - cbn in Hd. apply andb_prop in Hd. destruct Hd as [Hd _].
    apply isDot_eq in Hd. subst. now left.
  - cbn in Hd. apply andb_prop in Hd. destruct Hd as [Hd Hd'].
    apply andb_prop in Hd'. destruct Hd' as [Hd' _].
    apply isDot_eq in Hd, Hd'. subst. now right.
  - lia.
Qed.

Lemma fileName_spec x :
  fileName x = true ->
  x <> "" /\ slashFree x = true /\ x <> "." /\ x <> "..".
Proof.
  unfold fileName. intros H.
  repeat (apply andb_prop in H; destruct H as [H ?]).
  repeat match goal with
         | H : negb _ = true |- _ => apply negb_true_iff in H; apply String.eqb_neq in H
         end.
  auto.
Qed.

Lemma js_length_pos x : x <> "" -> 0 < Js.length x.
Proof. destruct x; [congruence | unfold Js.length; cbn; lia]. Qed.

Lemma last_nonslash (l : list ascii) code :
  l <> [] ->
  forallb (fun c => negb (isSlash c)) l = true ->
  exists c, fold_left (fun _ c => Some c) l code = Some c /\ isSlash c = false.
Proof.
  revert code. induction l as [| c l IH]; intros code Hne Hs; [congruence |].
  cbn in Hs. apply andb_prop in Hs. destruct Hs as [Hc Hs].
  cbn [fold_left]. destruct l as [| c' l].
  - exists c. split; [reflexivity | now apply negb_true_iff].
  - apply IH; [discriminate | exact Hs].
Qed.

Lemma chars_nonempty x : x <> "" -> chars x <> [].
Proof. destruct x; [congruence | discriminate]. Qed.

Lemma dirPart_cases pre :
  dirPart pre = true ->
  pre = "" \/ exists l c, chars pre = (l ++ [c])%list /\ isSlash c = true.
Proof.
  unfold dirPart. intros H.
  destruct (rev (chars pre)) as [| c l] eqn:E.
  - left. destruct pre; [reflexivity |]. cbn in E.
    apply (f_equal (@List.length ascii)) in E. rewrite length_app in E. cbn in E. lia.
  - right. exists (rev l), c. split; [| exact H].
    rewrite <- (rev_involutive (chars pre)), E. reflexivity.
Qed.

Lemma normFold_dirPart path allow pre :
  dirPart pre = true ->
  let v := normFold path allow (chars pre) 0 (mkNorm "" (-1) 0) in
  lastSlash v = Js.length pre - 1 /\ dots v = 0.
Proof.
  intros H. destruct (dirPart_cases pre H) as [-> | (l & c & Hl & Hc)].
  - cbn. auto.
  - cbn zeta. rewrite <- chars_length, Hl, normFold_app. cbn [normFold].
    rewrite Hc. rewrite length_app. cbn [List.length].
    destruct (normSlash_shape path allow (0 + Z.of_nat (List.length l))
                (normFold path allow l 0 (mkNorm "" (-1) 0))) as [-> ->].
    split; lia.
Qed.

(** After the directory part, a file name is appended to [res] as it
    is. *)
Lemma normalizeString_name pre x allow :
  dirPart pre = true -> fileName x = true ->
  normalizeStringPosix (pre ++ x) allow
  = (let r := normPrefix pre allow in
     if 0 <? Js.length r then r ++ "/" ++ x else x).
Proof.
  intros Hpre Hx. destruct (fileName_spec x Hx) as (Hne & Hsf & Hd1 & Hd2).
  unfold normalizeStringPosix. rewrite normLoop_fold. cbn zeta.
  rewrite chars_app, fold_left_app.
  destruct (last_nonslash (chars x)
              (fold_left (fun _ c => Some c) (chars pre) None)
              (chars_nonempty x Hne) Hsf) as (c & -> & ->).
  rewrite normFold_app, length_app, Nat2Z.inj_add, !chars_length.
  rewrite (normFold_prefix pre x "" allow (chars pre) 0 (mkNorm "" (-1) 0))
    by (cbn [lastSlash]; rewrite ?chars_length; lia).
  rewrite append_nil_r.
  destruct (normFold_dirPart pre allow pre Hpre) as [Hls Hdots].
  cbn zeta in Hls, Hdots.
  unfold normPrefix.
  set (V0 := normFold pre allow (chars pre) 0 (mkNorm "" (-1) 0)) in *.
  destruct (normFold_name (pre ++ x) allow (chars x) (0 + Js.length pre) V0 Hsf)
    as (Hr & Hl & Hd); [lia |].
  cbn zeta in Hr, Hl, Hd.
  set (V1 := normFold (pre ++ x) allow (chars x) (0 + Js.length pre) V0) in *.
  pose proof (js_length_pos x Hne) as Hpos.
  unfold normSlash. rewrite Hl, Hls, Hr, Hd, Hdots. cbn [Z.eqb].
  replace (Js.length pre - 1 =? 0 + (Js.length pre + Js.length x) - 1) with false
    by (symmetry; apply Z.eqb_neq; lia).
  assert (Hnd : (if forallb isDot (chars x)
                 then 0 + Z.of_nat (List.length (chars x)) else -1) <> 1
                /\ (if forallb isDot (chars x)
                    then 0 + Z.of_nat (List.length (chars x)) else -1) <> 2).
  { destruct (forallb isDot (chars x)) eqn:E; [| lia].
    rewrite chars_length.
    split; intros Hlen;
      destruct (all_dots_short x E) as [-> | ->]; try lia; congruence. }
  destruct Hnd as [Hn1 Hn2].
  apply Z.eqb_neq in Hn1, Hn2. rewrite Hn1, Hn2. cbn [orb res].
  replace (Js.length pre - 1 + 1) with (Js.length pre) by lia.
  replace (0 + (Js.length pre + Js.length x)) with (Js.length pre + Js.length x) by lia.
  rewrite slice_tail. reflexivity.
Qed.

Lemma slashFree_first x :
  slashFree x = true -> firstIsSlash x = false.
Proof.
  destruct x as [| c x]; [reflexivity |]. unfold slashFree. cbn.
  intros H. apply andb_prop in H. destruct H as [H _].
  now apply negb_true_iff.
Qed.

Lemma firstIsSlash_app pre x :
  slashFree x = true -> firstIsSlash (pre ++ x) = firstIsSlash pre.
Proof.
  destruct pre as [| c pre]; [| reflexivity].
  cbn. apply slashFree_first.
Qed.

Lemma lastIsSlash_name pre x :
  x <> "" -> slashFree x = true -> lastIsSlash (pre ++ x) = false.
Proof.
  intros Hne Hsf. unfold lastIsSlash. rewrite chars_app, rev_app_distr.
  unfold slashFree in Hsf.
  destruct (rev (chars x)) as [| c l] eqn:E.
  - apply (f_equal (@rev ascii)) in E. rewrite rev_involutive in E.
    now apply chars_nonempty in Hne.
  - cbn. assert (Hin : In c (chars x)) by (apply in_rev; rewrite E; now left).
    rewrite forallb_forall in Hsf. apply Hsf in Hin.
    now apply negb_true_iff.
Qed.

(** [normalize] keeps the file name and normalizes what is before it. *)
Lemma normalize_name pre x :
  dirPart pre = true -> fileName x = true ->
  normalize (pre ++ x) = dirPrefix pre ++ x.
Proof.
  intros Hpre Hx. destruct (fileName_spec x Hx) as (Hne & Hsf & _ & _).
  pose proof (js_length_pos x Hne) as Hpos.
  pose proof (js_length_nonneg pre) as Hp0.
  unfold normalize, dirPrefix.
  rewrite js_length_app.
  replace (Js.length pre + Js.length x =? 0) with false
    by (symmetry; apply Z.eqb_neq; lia).
  rewrite (firstIsSlash_app pre x Hsf), (lastIsSlash_name pre x Hne Hsf).
  rewrite (normalizeString_name pre x _ Hpre Hx). cbn zeta.
  set (r := normPrefix pre (negb (firstIsSlash pre))).
  pose proof (js_length_nonneg r) as Hr0.
  destruct (0 <? Js.length r) eqn:Er.
  - rewrite !js_length_app. change (Js.length "/") with 1.
    replace (Js.length r + (1 + Js.length x) =? 0) with false
      by (symmetry; apply Z.eqb_neq; lia).
    rewrite andb_false_r. cbn [andb].
    destruct (firstIsSlash pre); cbn; now rewrite ?append_assoc.
  - replace (Js.length x =? 0) with false by (symmetry; apply Z.eqb_neq; lia).
    rewrite andb_false_r. cbn [andb].
    destruct (firstIsSlash pre); cbn; reflexivity.
Qed.

Lemma dirPart_slash dir : dirPart (dir ++ "/") = true.
Proof. unfold dirPart. rewrite chars_app, rev_app_distr. reflexivity. Qed.

(** [join dir c] ends with the file name [c], after a prefix that
    depends on [dir] only. *)
Lemma join_name dir c :
  fileName c = true -> join dir c = joinPrefix dir ++ c.
Proof.
  intros Hc. destruct (fileName_spec c Hc) as (Hne & _).
  pose proof (js_length_pos c Hne) as Hpos.
  unfold join, joinPrefix. apply Z.ltb_lt in Hpos. rewrite Hpos.
  destruct (0 <? Js.length dir).
  - rewrite <- append_assoc. apply normalize_name; [apply dirPart_slash | exact Hc].
  - apply (normalize_name "" c); [reflexivity | exact Hc].
Qed.

(** So [join dir] is injective on file names. *)
Lemma join_name_inj dir c1 c2 :
  fileName c1 = true -> fileName c2 = true ->
  join dir c1 = join dir c2 -> c1 = c2.
Proof.
  intros H1 H2. rewrite !join_name by assumption. apply append_inv_head.
Qed.

(** *** dirname *)
Lemma dirnameLoop_skip l rest i v :
  forallb (fun c => negb (isSlash c)) l = true ->
  l <> [] -> Z.of_nat (List.length l) <= i ->
  dirnameLoop (l ++ rest) i v
  = dirnameLoop rest (i - Z.of_nat (List.length l)) (mkDir (d_end v) false).
Proof.
  revert i v. induction l as [| c l IH]; intros i v Hs Hne Hi; [congruence |].
  cbn in Hs. apply andb_prop in Hs. destruct Hs as [Hc Hs].
  apply negb_true_iff in Hc.
  cbn [app dirnameLoop]. cbn [List.length] in Hi |- *.
  destruct (i <? 1) eqn:E; [lia |]. rewrite Hc.
  destruct l as [| c' l].
  - cbn. f_equal; lia.
  - rewrite IH; [| exact Hs | discriminate | cbn [List.length] in *; lia].
    cbn [d_end]. f_equal. cbn [List.length]. lia.
Qed.

Lemma dirnameLoop_end l i v :
  forallb (fun c => negb (isSlash c)) l = true ->
  d_end (dirnameLoop l i v) = d_end v.
Proof.
  revert i v. induction l as [| c l IH]; intros i v Hs; [reflexivity |].
  cbn in Hs. apply andb_prop in Hs. destruct Hs as [Hc Hs].
  apply negb_true_iff in Hc. cbn [dirnameLoop].
  destruct (i <? 1); [reflexivity |]. rewrite Hc.
  rewrite IH by exact Hs. reflexivity.
Qed.

Lemma slashFree_rev x :
  slashFree x = true ->
  forallb (fun c => negb (isSlash c)) (rev (chars x)) = true.
Proof.
  unfold slashFree. rewrite !forallb_forall. intros H c Hin.
  apply H. now apply in_rev.
Qed.

Lemma rev_chars_nonempty x : x <> "" -> rev (chars x) <> [].
Proof.
  intros Hne E. apply (f_equal (@rev ascii)) in E.
  rewrite rev_involutive in E. now apply chars_nonempty in Hne.
Qed.

Lemma dirPart_rev pre :
  dirPart pre = true ->
  pre = "" \/ exists l, rev (chars pre) = "/"%char :: l.
Proof.
  unfold dirPart. intros H. destruct (rev (chars pre)) as [| c l] eqn:E.
  - left. destruct pre; [reflexivity |].
    apply (f_equal (@List.length ascii)) in E. rewrite length_rev in E.
    discriminate.
  - right. exists l. f_equal. now apply Ascii.eqb_eq.
Qed.

(** [dirname] of a directory part followed by a name. *)
Lemma dirname_name pre b :
  dirPart pre = true -> b <> "" -> slashFree b = true ->
  dirname (pre ++ b) = dirOf pre.
Proof.
  intros Hpre Hne Hsf. unfold dirname, dirOf.
  pose proof (js_length_pos b Hne) as Hpos.
  pose proof (js_length_nonneg pre) as Hp0.
  rewrite js_length_app.
  replace (Js.length pre + Js.length b =? 0) with false
    by (symmetry; apply Z.eqb_neq; lia).
  rewrite (firstIsSlash_app pre b Hsf), chars_app, rev_app_distr.
  destruct (dirPart_rev pre Hpre) as [-> | (l & Hl)].
  - cbn [chars list_ascii_of_string rev app]. rewrite app_nil_r.
    rewrite dirnameLoop_end by now apply slashFree_rev.
    reflexivity.
  - rewrite Hl.
    assert (Hlen : Js.length pre = Z.of_nat (List.length l) + 1).
    { rewrite <- chars_length, <- length_rev, Hl. cbn [List.length]. lia. }
    rewrite dirnameLoop_skip;
      [| now apply slashFree_rev | now apply rev_chars_nonempty
       | rewrite length_rev, chars_length; lia ].
    rewrite length_rev, chars_length. cbn [dirnameLoop d_end d_matchedSlash].
    replace (Js.length pre + Js.length b - 1 - Js.length b)
      with (Js.length pre - 1) by lia.
    replace (Js.length pre =? 0) with false by (symmetry; apply Z.eqb_neq; lia).
    destruct (Js.length pre =? 1) eqn:E1.
    + apply Z.eqb_eq in E1.
      replace (Js.length pre - 1 <? 1) with true by (symmetry; apply Z.ltb_lt; lia).
      cbn [d_end Z.eqb].
      destruct pre as [| c [| c' pre]]; unfold Js.length in E1; cbn in E1; try lia.
      cbn in Hl. injection Hl as ->. reflexivity.
    + apply Z.eqb_neq in E1.
      replace (Js.length pre - 1 <? 1) with false by (symmetry; apply Z.ltb_ge; lia).
      cbn [isSlash negb d_end]. change (isSlash "/") with true. cbn [negb d_end].
      replace (Js.length pre - 1 =? -1) with false by (symmetry; apply Z.eqb_neq; lia).
      replace (Js.length pre - 1 =? 1) with (Js.length pre =? 2)
        by (destruct (Z.eqb_spec (Js.length pre) 2),
                     (Z.eqb_spec (Js.length pre - 1) 1); lia || reflexivity).
      destruct (firstIsSlash pre && (Js.length pre =? 2)); [reflexivity |].
      apply slice_prefix; lia.
Qed.

Lemma string_of_chars_app l1 l2 :
  string_of_list_ascii (l1 ++ l2)
  = string_of_list_ascii l1 ++ string_of_list_ascii l2.
Proof. induction l1 as [| c l1 IH]; cbn; [reflexivity | now rewrite IH]. Qed.

Lemma dirPart_snoc pre :
  dirPart pre = true -> pre = "" \/ exists pre', pre = pre' ++ "/".
Proof.
  intros H. destruct (dirPart_rev pre H) as [-> | (l & Hl)]; [now left |].
  right. exists (string_of_list_ascii (rev l)).
  rewrite <- (string_of_list_ascii_of_string pre) at 1.
  fold (chars pre). rewrite <- (rev_involutive (chars pre)), Hl.
  cbn [rev]. now rewrite string_of_chars_app.
Qed.

(** Joining a name to [dirname] of a path gives back the normalized
    directory part of the path. *)
Lemma joinPrefix_dirOf pre :
  dirPart pre = true -> joinPrefix (dirOf pre) = dirPrefix pre.
Proof.
  intros H. destruct (dirPart_snoc pre H) as [-> | (pre' & ->)];
    [reflexivity |].
  unfold dirOf. rewrite js_length_app. change (Js.length "/") with 1.
  pose proof (js_length_nonneg pre') as Hp.
  destruct (Z.eqb_spec (Js.length pre' + 1) 0); [lia |].
  destruct (Z.eqb_spec (Js.length pre' + 1) 1) as [E1 | E1].
  - assert (pre' = "") as -> by (apply js_length_zero; lia). reflexivity.
  - destruct (firstIsSlash (pre' ++ "/") && (Js.length pre' + 1 =? 2)) eqn:E2.
    + apply andb_prop in E2. destruct E2 as [Hf Hl]. apply Z.eqb_eq in Hl.
      destruct pre' as [| c [| c' pre']]; unfold Js.length in Hl; cbn in Hl;
        try lia.
      cbn in Hf. apply Ascii.eqb_eq in Hf. subst. reflexivity.
    + replace (Js.length pre' + 1 - 1) with (Js.length pre') by lia.
      rewrite slice_head. unfold joinPrefix.
      destruct (Z.ltb_spec 0 (Js.length pre')); [reflexivity |].
      assert (Js.length pre' = 0) by lia. lia.
Qed.

(** *** basename *)

Lemma get_chars s n : String.get n s = nth_error (chars s) n.
Proof.
  revert n. induction s as [| c s IH]; intros [| n]; cbn; auto.
Qed.

(** Once the extension is matched, the characters of the name change
    nothing. *)
Lemma basenameExt_skip ext l rest i v :
  forallb (fun c => negb (isSlash c)) l = true ->
  extIdx v < 0 -> firstNonSlashEnd v <> -1 ->
  basenameExtLoop ext (l ++ rest) i v
  = basenameExtLoop ext rest (i - Z.of_nat (List.length l)) v.
Proof.
  revert i. induction l as [| c l IH]; intros i Hs He Hf.
  - cbn. f_equal. lia.
  - cbn in Hs. apply andb_prop in Hs. destruct Hs as [Hc Hs].
    apply negb_true_iff in Hc. cbn [app basenameExtLoop]. rewrite Hc.
    destruct (Z.eqb_spec (firstNonSlashEnd v) (-1)); [contradiction |].
    destruct (Z.leb_spec 0 (extIdx v)); [lia |].
    rewrite IH by assumption. f_equal. cbn [List.length]. lia.
Qed.

(** Reading the extension backwards: each character matches, and when
    the first one is reached [end] is its index. *)
Lemma basenameExt_match ext l1 suffix rest i v :
  chars ext = (rev l1 ++ suffix)%list ->
  forallb (fun c => negb (isSlash c)) l1 = true ->
  extIdx v = Z.of_nat (List.length l1) - 1 ->
  l1 <> [] -> Z.of_nat (List.length l1) - 1 <= i ->
  basenameExtLoop ext (l1 ++ rest) i v
  = basenameExtLoop ext rest (i - Z.of_nat (List.length l1))
      (mkBase (b_start v) (i - Z.of_nat (List.length l1) + 1)
         (if firstNonSlashEnd v =? -1 then false else b_matchedSlash v)
         (-1)
         (if firstNonSlashEnd v =? -1 then i + 1 else firstNonSlashEnd v)).
Proof.
  revert suffix i v. induction l1 as [| c l1 IH]; intros suffix i v Hext Hs Hidx Hne Hi;
    [congruence |].
  cbn in Hs. apply andb_prop in Hs. destruct Hs as [Hc Hs].
  apply negb_true_iff in Hc. cbn [app basenameExtLoop]. rewrite Hc.
  cbn [List.length] in Hidx, Hi |- *.
  cbn [rev] in Hext. rewrite <- app_assoc in Hext. cbn [app] in Hext.
  assert (Hget : extCharIs ext (Z.of_nat (List.length l1)) c = true).
  { unfold extCharIs. destruct (Z.ltb_spec (Z.of_nat (List.length l1)) 0); [lia |].
    rewrite Nat2Z.id, get_chars, Hext, nth_error_app2 by (rewrite length_rev; lia).
    rewrite length_rev, Nat.sub_diag. cbn. apply Ascii.eqb_refl. }
  set (v1 := if firstNonSlashEnd v =? -1
             then mkBase (b_start v) (b_end v) false (extIdx v) (i + 1) else v).
  assert (Hv1 : extIdx v1 = Z.of_nat (List.length l1)
                /\ b_start v1 = b_start v
                /\ b_matchedSlash v1
                   = (if firstNonSlashEnd v =? -1 then false else b_matchedSlash v)
                /\ firstNonSlashEnd v1
                   = (if firstNonSlashEnd v =? -1 then i + 1 else firstNonSlashEnd v)
                /\ firstNonSlashEnd v1 <> -1).
  { subst v1. destruct (Z.eqb_spec (firstNonSlashEnd v) (-1)); cbn;
      repeat split; lia. }
  destruct Hv1 as (Hi1 & Hs1 & Hm1 & Hf1 & Hf1').
  rewrite Hi1.
  destruct (Z.leb_spec 0 (Z.of_nat (List.length l1))); [| lia].
  rewrite Hget.
  destruct (Z.eqb_spec (Z.of_nat (List.length l1) - 1) (-1)) as [E | E].
  - destruct l1 as [| c' l1]; [| cbn [List.length] in E; lia].
    cbn [app List.length]. rewrite Hs1, Hm1, Hf1.
    change (Z.of_nat 0 - 1) with (-1). change (Z.of_nat 1) with 1.
    replace (i - 1 + 1) with i by lia. reflexivity.
  - rewrite (IH (c :: suffix)); [| exact Hext | exact Hs | reflexivity
                                 | intros ->; cbn in E; lia | lia].
    cbn [b_start b_end b_matchedSlash extIdx firstNonSlashEnd].
    destruct (Z.eqb_spec (firstNonSlashEnd v1) (-1)); [contradiction |].
    rewrite Hs1, Hm1, Hf1.
    replace (i - 1 - Z.of_nat (List.length l1))
      with (i - Z.of_nat (S (List.length l1))) by lia.
    reflexivity.
Qed.

Lemma rev_rev_chars x : chars x = (rev (rev (chars x)) ++ [])%list.
Proof. now rewrite rev_involutive, app_nil_r. Qed.

(** [basename] with the extension that ends the path returns the name
    before the extension. *)
Lemma basename_ext pre stem ext :
  dirPart pre = true ->
  stem <> "" -> slashFree stem = true ->
  ext <> "" -> slashFree ext = true ->
  basename (pre ++ stem ++ ext) ext = stem.
Proof.
  intros Hpre Hne Hsf Hene Hesf. unfold basename.
  pose proof (js_length_pos stem Hne) as Hs.
  pose proof (js_length_pos ext Hene) as He.
  pose proof (js_length_nonneg pre) as Hp.
  rewrite !js_length_app.
  destruct (Z.ltb_spec 0 (Js.length ext)); [| lia].
  destruct (Z.leb_spec (Js.length ext)
              (Js.length pre + (Js.length stem + Js.length ext))); [| lia].
  destruct (Z.eqb_spec (Js.length ext)
              (Js.length pre + (Js.length stem + Js.length ext))); [lia |].
  cbn [andb].
  rewrite !chars_app, !rev_app_distr, <- app_assoc.
  rewrite (basenameExt_match ext (rev (chars ext)) []);
    [| apply rev_rev_chars | now apply slashFree_rev
     | cbn [extIdx]; rewrite length_rev, chars_length; lia
     | now apply rev_chars_nonempty
     | rewrite length_rev, chars_length; lia ].
  cbn [b_start b_matchedSlash firstNonSlashEnd].
  change (-1 =? -1) with true. cbn iota.
  rewrite length_rev, chars_length.
  rewrite basenameExt_skip;
    [| now apply slashFree_rev | cbn; lia | cbn; lia ].
  rewrite length_rev, chars_length.
  assert (Hfin : forall v,
    v = basenameExtLoop ext (rev (chars pre))
          (Js.length pre + (Js.length stem + Js.length ext) - 1
           - Js.length ext - Js.length stem)
          (mkBase 0
             (Js.length pre + (Js.length stem + Js.length ext) - 1
              - Js.length ext + 1) false (-1)
             (Js.length pre + (Js.length stem + Js.length ext) - 1 + 1)) ->
    b_start v = Js.length pre
    /\ b_end v = Js.length pre + Js.length stem).
  { intros v ->. destruct (dirPart_rev pre Hpre) as [-> | (l & Hl)].
    - cbn. change (Js.length "") with 0. split; lia.
    - rewrite Hl. cbn. split; lia. }
  destruct (Hfin _ eq_refl) as [-> ->].
  destruct (Z.eqb_spec (Js.length pre) (Js.length pre + Js.length stem)); [lia |].
  destruct (Z.eqb_spec (Js.length pre + Js.length stem) (-1)); [lia |].
  apply slice_middle.
Qed.

(** *** extname *)

Lemma ext_eta v :
  v = mkExt (startDot v) (startPart v) (e_end v) (e_matchedSlash v)
        (preDotState v).
Proof. destruct v; reflexivity. Qed.

(** The characters after the last dot: they fix [end] and nothing
    else. *)
Lemma extname_tail l rest i v :
  forallb (fun c => negb (isSlash c)) l = true ->
  forallb (fun c => negb (isDot c)) l = true ->
  startDot v = -1 -> l <> [] -> Z.of_nat (List.length l) - 1 <= i ->
  extnameLoop (l ++ rest) i v
  = extnameLoop rest (i - Z.of_nat (List.length l))
      (mkExt (-1) (startPart v)
         (if e_end v =? -1 then i + 1 else e_end v)
         (if e_end v =? -1 then false else e_matchedSlash v)
         (preDotState v)).
Proof.
  revert i v. induction l as [| c l IH]; intros i v Hs Hd Hsd Hne Hi; [congruence |].
  cbn in Hs, Hd. apply andb_prop in Hs, Hd.
  destruct Hs as [Hc Hs], Hd as [Hcd Hd].
  apply negb_true_iff in Hc, Hcd.
  cbn [app extnameLoop]. rewrite Hc, Hcd. cbn [List.length] in Hi |- *.
  set (v1 := if e_end v =? -1
             then mkExt (startDot v) (startPart v) (i + 1) false (preDotState v)
             else v).
  assert (Hv1 : startDot v1 = -1 /\ startPart v1 = startPart v
                /\ e_end v1 = (if e_end v =? -1 then i + 1 else e_end v)
                /\ e_matchedSlash v1
                   = (if e_end v =? -1 then false else e_matchedSlash v)
                /\ preDotState v1 = preDotState v /\ e_end v1 <> -1).
  { subst v1. destruct (Z.eqb_spec (e_end v) (-1)); cbn; repeat split; lia. }
  destruct Hv1 as (H1 & H2 & H3 & H4 & H5 & H6).
  rewrite H1. change (-1 =? -1) with true. cbn [negb].
  destruct l as [| c' l].
  - cbn [app List.length]. change (Z.of_nat 1) with 1.
    rewrite (ext_eta v1), H1, H2, H3, H4, H5. reflexivity.
  - rewrite IH; [| exact Hs | exact Hd | exact H1 | discriminate
                 | cbn [List.length] in *; lia].
    destruct (Z.eqb_spec (e_end v1) (-1)); [contradiction |].
    rewrite H2, H3, H4, H5.
    replace (i - 1 - Z.of_nat (List.length (c' :: l)))
      with (i - Z.of_nat (S (List.length (c' :: l)))) by lia.
    reflexivity.
Qed.

(** The characters before the last dot, back to the '/': only
    [preDotState] changes. *)
Lemma extname_stem l rest i v :
  forallb (fun c => negb (isSlash c)) l = true ->
  startDot v <> -1 -> e_end v <> -1 ->
  extnameLoop (l ++ rest) i v
  = extnameLoop rest (i - Z.of_nat (List.length l))
      (mkExt (startDot v) (startPart v) (e_end v) (e_matchedSlash v)
         (fold_left (fun _ c => if isDot c then 1 else -1) l (preDotState v))).
Proof.
  revert i v. induction l as [| c l IH]; intros i v Hs Hsd He.
  - cbn. rewrite Z.sub_0_r. destruct v; reflexivity.
  - cbn in Hs. apply andb_prop in Hs. destruct Hs as [Hc Hs].
    apply negb_true_iff in Hc. cbn [app extnameLoop fold_left]. rewrite Hc.
    destruct (Z.eqb_spec (e_end v) (-1)); [contradiction |].
    destruct (Z.eqb_spec (startDot v) (-1)); [contradiction |].
    cbn [negb].
    rewrite IH; [| exact Hs | destruct (isDot c), (preDotState v =? 1); exact Hsd
                 | destruct (isDot c), (preDotState v =? 1); exact He].
    replace (i - 1 - Z.of_nat (List.length l))
      with (i - Z.of_nat (List.length (c :: l))) by (cbn [List.length]; lia).
    f_equal.
    destruct (isDot c); [destruct (Z.eqb_spec (preDotState v) 1) as [E | E] |];
      cbn; try rewrite E; reflexivity.
Qed.

Lemma preDot_nonzero l p :
  l <> [] -> fold_left (fun _ c => if isDot c then 1 else -1) l p <> 0.
Proof.
  revert p. induction l as [| c l IH]; intros p Hne; [congruence |].
  cbn [fold_left]. destruct l as [| c' l].
  - cbn. destruct (isDot c); lia.
  - apply IH. discriminate.
Qed.

Lemma dotFree_rev x :
  dotFree x = true ->
  forallb (fun c => negb (isDot c)) (rev (chars x)) = true.
Proof.
  unfold dotFree. rewrite !forallb_forall. intros H c Hin.
  apply H. now apply in_rev.
Qed.

(** [extname] returns the last dot and what follows it, for a name that
    is not just dots before it. *)
Lemma extname_name pre stem e :
  dirPart pre = true ->
  stem <> "" -> slashFree stem = true -> stem <> "." ->
  slashFree e = true -> dotFree e = true ->
  extname (pre ++ stem ++ "." ++ e) = "." ++ e.
Proof.
  intros Hpre Hne Hsf Hnd Hesf Hedf. unfold extname.
  pose proof (js_length_pos stem Hne) as Hs.
  pose proof (js_length_nonneg e) as He.
  pose proof (js_length_nonneg pre) as Hp.
  set (L := Js.length pre + Js.length stem + 1 + Js.length e).
  assert (HL : Js.length (pre ++ stem ++ "." ++ e) = L).
  { rewrite !js_length_app. change (Js.length ".") with 1. subst L. lia. }
  rewrite HL.
  rewrite !chars_app, !rev_app_distr, <- !app_assoc.
  change (rev (chars ".")) with ["."%char]. cbn [app].
  assert (Hdot : forall rest,
    extnameLoop (rev (chars e) ++ "."%char :: rest) (L - 1)
      (mkExt (-1) 0 (-1) true 0)
    = extnameLoop rest (Js.length pre + Js.length stem - 1)
        (mkExt (Js.length pre + Js.length stem) 0 L false 0)).
  { intros rest. destruct (rev (chars e)) as [| c l] eqn:E.
    - assert (Js.length e = 0).
      { rewrite <- chars_length, <- length_rev, E. reflexivity. }
      cbn [app extnameLoop]. change (isSlash ".") with false.
      change (isDot ".") with true. cbn.
      f_equal; [subst L; lia |]. f_equal; subst L; lia.
    - rewrite <- E. rewrite extname_tail;
        [| now apply slashFree_rev | now apply dotFree_rev | reflexivity
         | rewrite E; discriminate
         | rewrite length_rev, chars_length; subst L; lia ].
      rewrite length_rev, chars_length.
      cbn [extnameLoop startDot startPart e_end e_matchedSlash preDotState].
      change (isSlash ".") with false. change (isDot ".") with true.
      change (-1 =? -1) with true. cbn iota.
      destruct (Z.eqb_spec (L - 1 + 1) (-1)); [subst L; lia |].
      cbn [startDot startPart e_end e_matchedSlash preDotState].
      change (-1 =? -1) with true. cbn iota.
      f_equal; [subst L; lia |]. f_equal; subst L; lia. }
  rewrite Hdot.
  rewrite extname_stem; [| now apply slashFree_rev | cbn; lia | cbn; subst L; lia].
  rewrite length_rev, chars_length.
  cbn [startDot startPart e_end e_matchedSlash preDotState].
  set (f := fold_left (fun _ c => if isDot c then 1 else -1) (rev (chars stem)) 0).
  assert (Hf0 : f <> 0) by (apply preDot_nonzero; now apply rev_chars_nonempty).
  assert (Hf1 : f = 1 -> Js.length stem <> 1).
  { intros Hf Hlen. destruct stem as [| c [| c' stem]];
      unfold Js.length in Hlen; cbn in Hlen; try lia.
    subst f. cbn in Hf. destruct (isDot c) eqn:Ec; [| lia].
    apply isDot_eq in Ec. subst c. congruence. }
  assert (Hfin : forall v,
    v = extnameLoop (rev (chars pre))
          (Js.length pre + Js.length stem - 1 - Js.length stem)
          (mkExt (Js.length pre + Js.length stem) 0 L false f) ->
    startDot v = Js.length pre + Js.length stem /\ startPart v = Js.length pre
    /\ e_end v = L /\ preDotState v = f).
  { intros v ->. destruct (dirPart_rev pre Hpre) as [-> | (l & Hl)].
    - cbn. repeat split.
    - rewrite Hl. cbn. repeat split. lia. }
  destruct (Hfin _ eq_refl) as (-> & -> & -> & ->).
  destruct (Z.eqb_spec (Js.length pre + Js.length stem) (-1)); [lia |].
  destruct (Z.eqb_spec L (-1)); [subst L; lia |].
  destruct (Z.eqb_spec f 0); [contradiction |].
  cbn [orb].
  replace ((f =? 1) && (Js.length pre + Js.length stem =? L - 1)
           && (Js.length pre + Js.length stem =? Js.length pre + 1)) with false.
  2: { symmetry. destruct (Z.eqb_spec f 1) as [Ef | Ef]; [| reflexivity].
       apply Hf1 in Ef.
       destruct (Z.eqb_spec (Js.length pre + Js.length stem) (Js.length pre + 1));
         [lia | apply andb_false_r]. }
  rewrite <- (append_assoc pre stem ("." ++ e)).
  replace (Js.length pre + Js.length stem) with (Js.length (pre ++ stem))
    by apply js_length_app.
  replace L with (Js.length (pre ++ stem) + Js.length ("." ++ e)).
  - apply slice_tail.
  - subst L. rewrite !js_length_app. change (Js.length ".") with 1. lia.
Qed.

(** *** Directory parts in normal form *)

Lemma name_dots x :
  fileName x = true ->
  (if forallb isDot (chars x)
   then 0 + Z.of_nat (List.length (chars x)) else -1) <> 1
  /\ (if forallb isDot (chars x)
      then 0 + Z.of_nat (List.length (chars x)) else -1) <> 2.
Proof.
  intros Hx. destruct (fileName_spec x Hx) as (Hne & Hsf & Hd1 & Hd2).
  destruct (forallb isDot (chars x)) eqn:E; [| lia].
  rewrite chars_length.
  split; intros Hlen;
    destruct (all_dots_short x E) as [-> | ->]; try lia; congruence.
Qed.

(** One more directory name in the directory part. *)
Lemma normPrefix_snoc pre d allow :
  dirPart pre = true -> fileName d = true ->
  normPrefix (pre ++ d ++ "/") allow = joinRes (normPrefix pre allow) d.
Proof.
  intros Hpre Hd. destruct (fileName_spec d Hd) as (Hne & Hsf & _ & _).
  unfold normPrefix at 1.
  rewrite !chars_app, normFold_app, normFold_app, !chars_length.
  rewrite (normFold_prefix pre (d ++ "/") "" allow (chars pre) 0 (mkNorm "" (-1) 0))
    by (cbn [lastSlash]; rewrite ?chars_length; lia).
  rewrite append_nil_r.
  destruct (normFold_dirPart pre allow pre Hpre) as [Hls Hdots].
  cbn zeta in Hls, Hdots.
  unfold normPrefix, joinRes.
  set (V0 := normFold pre allow (chars pre) 0 (mkNorm "" (-1) 0)) in *.
  destruct (normFold_name (pre ++ d ++ "/") allow (chars d) (0 + Js.length pre) V0 Hsf)
    as (Hr & Hl & Hdd); [lia |].
  cbn zeta in Hr, Hl, Hdd.
  set (V1 := normFold (pre ++ d ++ "/") allow (chars d) (0 + Js.length pre) V0) in *.
  pose proof (js_length_pos d Hne) as Hpos.
  change (chars "/") with ["/"%char]. cbn [normFold].
  change (isSlash "/") with true. cbn iota.
  unfold normSlash. rewrite Hl, Hls, Hr, Hdd, Hdots.
  change (0 =? -1) with false. cbn iota.
  replace (Js.length pre - 1 =? 0 + Js.length pre + Js.length d - 1) with false
    by (symmetry; apply Z.eqb_neq; lia).
  destruct (name_dots d Hd) as [Hn1 Hn2].
  apply Z.eqb_neq in Hn1, Hn2. rewrite Hn1, Hn2. cbn [orb res].
  replace (Js.length pre - 1 + 1) with (Js.length pre) by lia.
  replace (0 + Js.length pre + Js.length d) with (Js.length pre + Js.length d) by lia.
  rewrite slice_middle. reflexivity.
Qed.

Lemma slashed_joinRes r d : d <> "" -> slashed (joinRes r d) = slashed r ++ d ++ "/".
Proof.
  intros Hne. pose proof (js_length_pos d Hne) as Hd.
  pose proof (js_length_nonneg r) as Hr.
  unfold slashed, joinRes.
  destruct (Z.ltb_spec 0 (Js.length r)).
  - rewrite !js_length_app. change (Js.length "/") with 1.
    destruct (Z.ltb_spec 0 (Js.length r + (1 + Js.length d))); [| lia].
    now rewrite !append_assoc.
  - destruct (Z.ltb_spec 0 (Js.length d)); [reflexivity | lia].
Qed.

Lemma normPrefix_dirs dirs pre allow :
  dirPart pre = true ->
  forallb fileName dirs = true ->
  slashed (normPrefix (pre ++ dirString dirs) allow)
  = slashed (normPrefix pre allow) ++ dirString dirs.
Proof.
  revert pre. induction dirs as [| d dirs IH]; intros pre Hpre Hds.
  - cbn. now rewrite !append_nil_r.
  - cbn in Hds. apply andb_prop in Hds. destruct Hds as [Hd Hds].
    destruct (fileName_spec d Hd) as (Hne & _).
    cbn [dirString].
    replace (pre ++ d ++ "/" ++ dirString dirs)
      with ((pre ++ d ++ "/") ++ dirString dirs)
      by now rewrite !append_assoc.
    rewrite IH; [| rewrite <- append_assoc; apply dirPart_slash | exact Hds].
    rewrite normPrefix_snoc by assumption.
    rewrite slashed_joinRes by assumption.
    now rewrite !append_assoc.
Qed.

Lemma firstIsSlash_dirs pre dirs :
  forallb fileName dirs = true ->
  firstIsSlash (pre ++ dirString dirs) = firstIsSlash pre.
Proof.
  intros Hds. destruct pre as [| c pre]; [| reflexivity].
  destruct dirs as [| d dirs]; [reflexivity |].
  cbn in Hds. apply andb_prop in Hds. destruct Hds as [Hd _].
  destruct (fileName_spec d Hd) as (Hne & Hsf & _).
  cbn [append dirString]. destruct d as [| c d]; [congruence |].
  cbn. unfold slashFree in Hsf. cbn in Hsf.
  apply andb_prop in Hsf. destruct Hsf as [Hc _]. now apply negb_true_iff.
Qed.

(** A directory part made of file names is in normal form: [normalize]
    leaves it as it is. *)
Lemma dirPrefix_dirs pre dirs :
  dirPart pre = true -> forallb fileName dirs = true ->
  dirPrefix (pre ++ dirString dirs) = dirPrefix pre ++ dirString dirs.
Proof.
  intros Hpre Hds. unfold dirPrefix.
  rewrite firstIsSlash_dirs by assumption.
  fold (slashed (normPrefix (pre ++ dirString dirs) (negb (firstIsSlash pre)))).
  fold (slashed (normPrefix pre (negb (firstIsSlash pre)))).
  rewrite normPrefix_dirs by assumption.
  now rewrite append_assoc.
Qed.

Lemma dirPart_dirs pre dirs :
  dirPart pre = true -> dirPart (pre ++ dirString dirs) = true.
Proof.
  revert pre. induction dirs as [| d dirs IH]; intros pre Hpre.
  - cbn. now rewrite append_nil_r.
  - cbn [dirString].
    replace (pre ++ d ++ "/" ++ dirString dirs)
      with ((pre ++ d ++ "/") ++ dirString dirs)
      by now rewrite !append_assoc.
    apply IH. rewrite <- append_assoc. apply dirPart_slash.
Qed.

(** *** endsWith and the output path *)

Lemma endsWith_app x suffix : Js.endsWith (x ++ suffix) suffix = true.
Proof.
  unfold Js.endsWith. rewrite str_length_app.
  apply andb_true_intro. split.
  - apply Nat.leb_le. lia.
  - replace (String.length x + String.length suffix - String.length suffix)%nat
      with (String.length x + 0)%nat by lia.
    rewrite substring_skip, substring_whole. apply String.eqb_refl.
Qed.

Lemma substring_split (m : nat) (s : string) :
  (m <= String.length s)%nat ->
  s = substring 0 m s ++ substring m (String.length s - m) s.
Proof.
  revert m. induction s as [| c s IH]; intros m Hm.
  - destruct m; reflexivity.
  - destruct m as [| m].
    + cbn [substring append String.length Nat.sub]. f_equal.
      symmetry. apply substring_whole.
    + cbn [substring append String.length Nat.sub]. f_equal.
      apply IH. cbn in Hm. lia.
Qed.

Lemma endsWith_inv s suffix :
  Js.endsWith s suffix = true -> exists x, s = x ++ suffix.
Proof.
  unfold Js.endsWith. intros H. apply andb_prop in H. destruct H as [Hl He].
  apply Nat.leb_le in Hl. apply String.eqb_eq in He.
  exists (substring 0 (String.length s - String.length suffix) s).
  pose proof (substring_split (String.length s - String.length suffix) s)
    as Hsplit.
  replace (String.length s - (String.length s - String.length suffix))%nat
    with (String.length suffix) in Hsplit by lia.
  rewrite He in Hsplit. apply Hsplit. lia.
Qed.

Lemma js_not_coffee_md x : Js.endsWith (x ++ ".js") ".coffee.md" = false.
Proof.
  destruct (Js.endsWith (x ++ ".js") ".coffee.md") eqn:E; [| reflexivity].
  apply endsWith_inv in E. destruct E as (y & Hy).
  apply (f_equal (fun s => rev (chars s))) in Hy.
  rewrite !chars_app, !rev_app_distr in Hy. cbn in Hy. discriminate.
Qed.

Lemma slashFree_app a b :
  slashFree a = true -> slashFree b = true -> slashFree (a ++ b) = true.
Proof.
  unfold slashFree. rewrite chars_app, forallb_app. intros -> ->. reflexivity.
Qed.

Lemma append_nonempty_r a b : b <> "" -> a ++ b <> "".
Proof. destruct a; [trivial | discriminate]. Qed.

(** The output path, once the detected extension is known. *)
Lemma outputPath_with_extension pre stem ext :
  dirPart pre = true -> fileName stem = true ->
  ext <> "" -> slashFree ext = true ->
  extension (pre ++ stem ++ ext) = ext ->
  outputPath (pre ++ stem ++ ext) = dirPrefix pre ++ stem ++ ".js".
Proof.
  intros Hpre Hstem Hene Hesf Hext.
  destruct (fileName_spec stem Hstem) as (Hne & Hsf & _ & _).
  unfold outputPath. rewrite Hext.
  rewrite dirname_name;
    [| exact Hpre | now apply append_nonempty_r | now apply slashFree_app].
  rewrite basename_ext by assumption.
  rewrite join_name by assumption.
  rewrite joinPrefix_dirOf by assumption.
  apply append_assoc.
Qed.

(** A name followed by .coffee.md: the whole suffix is replaced. *)
Lemma outputPath_coffee_md pre stem :
  dirPart pre = true -> fileName stem = true ->
  outputPath (pre ++ stem ++ ".coffee.md") = normalize (pre ++ stem) ++ ".js".
Proof.
  intros Hpre Hstem. rewrite normalize_name by assumption.
  rewrite append_assoc.
  apply outputPath_with_extension; try assumption; try reflexivity;
    [discriminate |].
  unfold extension. rewrite <- append_assoc, endsWith_app. reflexivity.
Qed.

(** A name followed by one more extension: that extension is
    replaced. *)
Lemma outputPath_last_extension pre stem e :
  dirPart pre = true -> fileName stem = true ->
  slashFree e = true -> dotFree e = true ->
  Js.endsWith (pre ++ stem ++ "." ++ e) ".coffee.md" = false ->
  outputPath (pre ++ stem ++ "." ++ e) = normalize (pre ++ stem) ++ ".js".
Proof.
  intros Hpre Hstem Hesf Hedf Hmd.
  destruct (fileName_spec stem Hstem) as (Hne & Hsf & Hd1 & _).
  rewrite normalize_name by assumption. rewrite append_assoc.
  apply outputPath_with_extension; try assumption.
  - discriminate.
  - unfold extension. rewrite Hmd. now apply extname_name.
Qed.

Lemma fileName_js stem : fileName stem = true -> fileName (stem ++ ".js") = true.
Proof.
  intros H. destruct (fileName_spec stem H) as (Hne & Hsf & _ & _).
  unfold fileName.
  assert (Hlen : (4 <= String.length (stem ++ ".js"))%nat).
  { rewrite str_length_app. destruct stem; [congruence | cbn; lia]. }
  rewrite (slashFree_app stem ".js" Hsf eq_refl).
  repeat (apply andb_true_intro; split); try reflexivity;
    apply negb_true_iff, String.eqb_neq; intros E; rewrite E in Hlen;
    cbn in Hlen; lia.
Qed.

(** A name followed by .js: the output path is the normalized path. *)
Lemma outputPath_js pre stem :
  dirPart pre = true -> fileName stem = true ->
  outputPath (pre ++ stem ++ ".js") = normalize (pre ++ stem ++ ".js").
Proof.
  intros Hpre Hstem.
  rewrite (normalize_name pre (stem ++ ".js")) by (try apply fileName_js; assumption).
  apply (outputPath_with_extension pre stem ".js"); try assumption;
    try reflexivity; [discriminate |].
  unfold extension. rewrite <- append_assoc, js_not_coffee_md, append_assoc.
  apply (extname_name pre stem "js"); try reflexivity; try assumption;
    destruct (fileName_spec stem Hstem) as (? & ? & ? & ?); assumption.
Qed.

(** A path in normal form that ends in name.js is its own output
    path. *)
Lemma outputPath_js_fixed root dirs stem :
  root = "" \/ root = "/" ->
  forallb fileName dirs = true -> fileName stem = true ->
  outputPath (root ++ dirString dirs ++ stem ++ ".js")
  = root ++ dirString dirs ++ stem ++ ".js".
Proof.
  intros Hroot Hdirs Hstem.
  assert (Hr : dirPart root = true /\ dirPrefix root = root)
    by (destruct Hroot as [-> | ->]; split; reflexivity).
  destruct Hr as [Hr1 Hr2].
  rewrite <- (append_assoc root (dirString dirs)).
  rewrite outputPath_js; [| now apply dirPart_dirs | exact Hstem].
  rewrite (normalize_name _ (stem ++ ".js"));
    [| now apply dirPart_dirs | now apply fileName_js].
  rewrite dirPrefix_dirs by assumption. now rewrite Hr2.
Qed.

End PathFacts.

(** ** The output path *)



(** [basename] keeps a last component that is the extension and nothing
    else, so a file whose whole name is .coffee.md keeps its name. *)
Example hidden_coffee_md_keeps_its_name :
  NodePath.basename "a/.coffee.md" ".coffee.md" = ".coffee.md"
  /\ outputPath "a/.coffee.md" = "a/.coffee.md.js".
Proof. vm_compute. repeat split. Qed.


(** ** Facts about the traversal *)

Section DriverFacts.

Variable Err : Type.
Variable FS : Type.
Variable stat : FS -> string -> Err + Stats.
Variable readdir : FS -> string -> Err + list string.
Variable readFile : FS -> string -> Err + string.
Variable writeFile : FS -> string -> string -> FS * option Err.
Variable convert : string -> Options -> Err + string.
Variable modernizeJS : string -> Options -> Err + string.
Variable PatchError_detect : Err -> bool.
Variable PatchError_prettyPrint : Err -> string.

Local Abbreviation processPath :=
  (processPath Err FS stat readdir readFile writeFile convert modernizeJS
     PatchError_detect PatchError_prettyPrint).
Local Abbreviation processNext :=
  (processNext Err FS stat readdir readFile writeFile convert modernizeJS
     PatchError_detect PatchError_prettyPrint).
Local Abbreviation drain :=
  (drain Err FS stat readdir readFile writeFile convert modernizeJS
     PatchError_detect PatchError_prettyPrint).
Local Abbreviation steps :=
  (steps Err FS stat readdir readFile writeFile convert modernizeJS
     PatchError_detect PatchError_prettyPrint).
Local Abbreviation runWithCode :=
  (runWithCode Err convert modernizeJS PatchError_detect
     PatchError_prettyPrint).
Local Abbreviation State := (State Err FS).
Local Abbreviation Event := (Event Err).
Local Abbreviation requeued := (requeued Err FS stat readdir).

Variable options : CLIOptions.
Variable callback : bool.

Lemma processPath_pending (path : string) (st : State) :
  pending (stateOf (processPath options path st))
  = (requeued options (fs st) path ++ pending st)%list.
Proof.
  unfold processPath, processDirectory, processFile, requeued.
  cbn [logEvents fs].
  destruct (stat (fs st) path) as [err | info]; [reflexivity |].
  destruct (isDirectory info).
  - cbn [fs logEvents]. destruct (readdir (fs st) path); reflexivity.
  - cbn [fs logEvents]. destruct (readFile (fs st) path); [reflexivity |].
    destruct (runWithCode _ _ _); try reflexivity.
    cbn [fs logEvents].
    destruct (writeFile _ _ _) as [fs' [err |]]; reflexivity.
Qed.

Lemma processNext_pending (st : State) (path : string) (rest : list string) :
  pending st = path :: rest ->
  pending (stateOf (processNext options callback st))
  = (requeued options (fs st) path ++ rest)%list.
Proof.
  intros Hp. unfold processNext. rewrite Hp.
  rewrite processPath_pending. reflexivity.
Qed.

(** Each call of [processNext] only adds events. *)
Lemma processPath_events (path : string) (st : State) :
  exists new,
    events (stateOf (processPath options path st))
    = (events st ++ Stat path :: new)%list
    /\ forall e, In e new ->
         (forall q, touched e = Some q -> q = path)
         /\ (forall es, e <> Callback es).
Proof.
  unfold processPath, processDirectory, processFile.
  cbn [logEvents fs events].
  destruct (stat (fs st) path) as [err | info].
  - exists []. split; [reflexivity | intros e []].
  - destruct (isDirectory info); cbn [fs logEvents events].
    + exists [Readdir path]. split.
      * destruct (readdir (fs st) path); cbn; rewrite <- app_assoc; reflexivity.
      * intros e [<- | []]; split; cbn; congruence.
    + destruct (readFile (fs st) path) as [err | data].
      * exists [ConsoleLog (path ++ " → " ++ outputPath path); ReadFile path].
        split; [cbn; rewrite <- !app_assoc; reflexivity |].
        intros e [<- | [<- | []]]; split; cbn; congruence.
      * destruct (runWithCode path data options) as [code | line | err];
          cbn [fs logEvents events stateOf].
        -- exists [ConsoleLog (path ++ " → " ++ outputPath path);
                   ReadFile path; Engine path data;
                   WriteFile (outputPath path) code].
           split.
           ++ destruct (writeFile _ _ _) as [fs' [err |]];
                cbn; rewrite <- !app_assoc; reflexivity.
           ++ intros e [<- | [<- | [<- | [<- | []]]]]; split; cbn; congruence.
        -- exists [ConsoleLog (path ++ " → " ++ outputPath path);
                   ReadFile path; Engine path data; ConsoleError line].
           split; [rewrite <- !app_assoc; reflexivity |].
           intros e [<- | [<- | [<- | [<- | []]]]]; split; cbn; congruence.
        -- exists [ConsoleLog (path ++ " → " ++ outputPath path);
                   ReadFile path; Engine path data].
           split; [rewrite <- !app_assoc; reflexivity |].
           intros e [<- | [<- | [<- | []]]]; split; cbn; congruence.
Qed.

Lemma requeued_spec (fs0 : FS) (path q : string) :
  In q (requeued options fs0 path) ->
  exists info children c,
    stat fs0 path = inr info /\ isDirectory info = true
    /\ readdir fs0 path = inr children
    /\ In c children /\ eligible options c = true
    /\ q = NodePath.join path c.
Proof.
  unfold requeued.
  destruct (stat fs0 path) as [err | info]; [intros [] |].
  destruct (isDirectory info) eqn:Hd; [| intros []].
  destruct (readdir fs0 path) as [err | children]; [intros [] |].
  intros Hq. apply in_map_iff in Hq. destruct Hq as (c & <- & Hc).
  apply filter_In in Hc. destruct Hc as [Hc He].
  exists info, children, c. repeat split; assumption.
Qed.

Lemma drain_steps (n : nat) (st0 st : State) (fuel : nat) :
  steps options callback n st0 = Next st ->
  drain options callback (n + fuel) st0 = drain options callback fuel st.
Proof.
  revert st0. induction n as [| n IH]; intros st0 Hs.
  - cbn in Hs. injection Hs as <-. reflexivity.
  - cbn in Hs |- *.
    destruct (processNext options callback st0) as [st1 | h st1];
      [apply IH; exact Hs | discriminate].
Qed.

(** *** The work list *)

(** C7.  Every call of [processNext] on a non-empty work list takes
    exactly one item off it and puts back exactly the eligible children
    when that item is a directory whose listing succeeds; a stat error,
    a listing error, a plain file (whatever happens while it is read,
    converted and written) put nothing back. *)
Theorem work_list_step_length
    (path : string) (rest : list string) (errs : list Err) (fs0 : FS)
    (evs : list Event) :
  List.length
    (pending (stateOf (processNext options callback
                         (mkState (path :: rest) errs fs0 evs))))
  = (List.length rest
     + match stat fs0 path with
       | inr info =>
           if isDirectory info then
             match readdir fs0 path with
             | inr children =>
                 List.length (filter (eligible options) children)
             | inl _ => 0
             end
           else 0
       | inl _ => 0
       end)%nat.
Proof.
  rewrite (processNext_pending _ path rest) by reflexivity.
  rewrite length_app, Nat.add_comm. f_equal. unfold requeued. cbn [fs].
  destruct (stat fs0 path) as [err | info]; [reflexivity |].
  destruct (isDirectory info); [| reflexivity].
  destruct (readdir fs0 path); [reflexivity |].
  apply length_map.
Qed.

(** A stat error is pushed on [errors] and nothing else happens: the
    callback of [stat] returns without calling [processNext]. *)
Lemma stat_error_stalls (st : State) (path : string) (rest : list string)
    (err : Err) :
  pending st = path :: rest ->
  stat (fs st) path = inl err ->
  processNext options callback st
  = Stop Stalled
      (mkState rest (errors st ++ [err]) (fs st) (events st ++ [Stat path])).
Proof.
  intros Hp Hs. unfold processNext, processPath. rewrite Hp.
  cbn [logEvents fs]. rewrite Hs. reflexivity.
Qed.

(** *** Fatal conversion errors *)

(** C3.  When the engine throws on the contents of the file at the head
    of the work list, the run ends there: for a patch error the
    diagnostic is printed to the error console and the process exits
    with status 1, any other error leaves the callback uncaught.  In
    both cases the rest of the work list is left as it was, [errors] is
    not extended, and the last events are those of this file. *)
Theorem conversion_error_is_fatal
    (st0 st : State) (n : nat) (path : string) (rest : list string)
    (info : Stats) (data : string) (err : Err) :
  steps options callback n st0 = Next st ->
  pending st = path :: rest ->
  stat (fs st) path = inr info ->
  isDirectory info = false ->
  readFile (fs st) path = inr data ->
  (if modernizeJS_flag options then modernizeJS else convert)
    data (setFilename path (baseOptions options)) = inl err ->
  forall fuel, (n < fuel)%nat ->
    drain options callback fuel st0
    = Some (if PatchError_detect err then Exited 1
            else Uncaught (Raised err),
            mkState rest (errors st) (fs st)
              (events st
               ++ [Stat path;
                   ConsoleLog (path ++ " → " ++ outputPath path);
                   ReadFile path; Engine path data]
               ++ (if PatchError_detect err
                   then [ConsoleError
                           (path ++ ": " ++ PatchError_prettyPrint err)]
                   else []))%list).
Proof.
  intros Hsteps Hp Hstat Hfile Hread Hthrow fuel Hfuel.
  replace fuel with (n + S (fuel - n - 1))%nat by lia.
  rewrite (drain_steps _ _ _ _ Hsteps).
  cbn [drain]. unfold processNext, processPath, processFile.
  rewrite Hp. cbn [logEvents fs]. rewrite Hstat, Hfile.
  cbn [logEvents fs]. rewrite Hread. unfold runWithCode.
  destruct (modernizeJS_flag options); rewrite Hthrow;
    destruct (PatchError_detect err); unfold logEvents;
    cbn [fs events errors pending]; rewrite <- ?app_assoc; reflexivity.
Qed.

(** *** Order of the work list *)

(** The items behind a prefix of the work list stay where they are
    until the prefix, and everything it puts on the list, is used up. *)
Lemma steps_keep_tail (n : nat) (st st' : State) (front rest : list string) :
  pending st = (front ++ rest)%list ->
  steps options callback n st = Next st' ->
  (exists front', front' <> [] /\ pending st' = (front' ++ rest)%list)
  \/ (exists m st3, (m <= n)%nat
        /\ steps options callback m st = Next st3 /\ pending st3 = rest).
Proof.
  revert st front. induction n as [| n IH]; intros st front Hp Hs.
  - cbn in Hs. injection Hs as <-. destruct front as [| p front].
    + right. exists 0%nat, st. repeat split; [lia | exact Hp].
    + left. exists (p :: front). split; [discriminate | exact Hp].
  - destruct front as [| p front].
    + right. exists 0%nat, st. repeat split; [lia | exact Hp].
    + cbn in Hs.
      pose proof (processNext_pending st p (front ++ rest)%list Hp) as Hq.
      destruct (processNext options callback st) as [st1 | h st1] eqn:E;
        [| discriminate].
      cbn [stateOf] in Hq. rewrite app_assoc in Hq.
      destruct (IH st1 _ Hq Hs) as [Hl | (m & st3 & Hm & Hs3 & Hp3)].
      * left. exact Hl.
      * right. exists (S m), st3. repeat split; [lia | | exact Hp3].
        cbn. rewrite E. exact Hs3.
Qed.


(** *** Which paths are classified *)

Lemma steps_reachable (paths0 : list string) (n : nat) (st : State) :
  (forall q, In q (pending st) -> Reachable options paths0 q) ->
  (forall e q, In e (events st) -> touched e = Some q ->
               Reachable options paths0 q) ->
  forall e q,
    In e (events (stateOf (steps options callback n st))) ->
    touched e = Some q ->
    Reachable options paths0 q.
Proof.
  revert st. induction n as [| n IH]; intros st Hpend Hev.
  - exact Hev.
  - cbn [steps].
    destruct (pending st) as [| path rest] eqn:Hp.
    + unfold processNext. rewrite Hp. cbn [stateOf].
      destruct callback; [| exact Hev].
      cbn [logEvents events]. intros e q Hin Ht.
      apply in_app_or in Hin. destruct Hin as [Hin | [<- | []]];
        [eapply Hev; eassumption | discriminate].
    + pose proof (processNext_pending st path rest Hp) as Hq.
      assert (Hpath : Reachable options paths0 path)
        by (apply Hpend; left; reflexivity).
      assert (Hev1 : forall e q,
                 In e (events (stateOf (processNext options callback st))) ->
                 touched e = Some q -> Reachable options paths0 q).
      { unfold processNext. rewrite Hp.
        destruct (processPath_events path
                    (mkState rest (errors st) (fs st) (events st)))
          as (new & -> & Hnew).
        cbn [events]. intros e q Hin Ht.
        apply in_app_or in Hin. destruct Hin as [Hin | [<- | Hin]].
        - eapply Hev; eassumption.
        - injection Ht as <-. exact Hpath.
        - destruct (Hnew e Hin) as [Hq' _]. rewrite (Hq' q Ht). exact Hpath. }
      destruct (processNext options callback st) as [st1 | h st1];
        [| exact Hev1].
      cbn [stateOf] in Hq, Hev1. apply IH; [| exact Hev1].
      intros q Hin. rewrite Hq in Hin. apply in_app_or in Hin.
      destruct Hin as [Hin | Hin].
      * apply requeued_spec in Hin.
        destruct Hin as (info & children & c & _ & _ & _ & _ & He & ->).
        apply reach_child; assumption.
      * apply Hpend. right. exact Hin.
Qed.


(** *** The completion callback *)

Lemma processNext_no_callback (st : State) :
  callback = false ->
  (forall es, ~ In (Callback es) (events st)) ->
  forall es,
    ~ In (Callback es) (events (stateOf (processNext options callback st))).
Proof.
  intros Hcb Hev es. unfold processNext.
  destruct (pending st) as [| path rest].
  - rewrite Hcb. cbn [stateOf]. apply Hev.
  - destruct (processPath_events path
                (mkState rest (errors st) (fs st) (events st)))
      as (new & -> & Hnew).
    cbn [events]. intros Hin. apply in_app_or in Hin.
    destruct Hin as [Hin | [Hin | Hin]].
    + exact (Hev es Hin).
    + discriminate.
    + destruct (Hnew _ Hin) as [_ Hne]. exact (Hne es eq_refl).
Qed.

Lemma drain_no_callback (fuel : nat) (st st' : State) (h : Halt Err) :
  callback = false ->
  (forall es, ~ In (Callback es) (events st)) ->
  drain options callback fuel st = Some (h, st') ->
  forall es, ~ In (Callback es) (events st').
Proof.
  intros Hcb. revert st. induction fuel as [| fuel IH]; intros st Hev Hd.
  - discriminate.
  - cbn in Hd. pose proof (processNext_no_callback st Hcb Hev) as Hn.
    destruct (processNext options callback st) as [st1 | h1 st1].
    + exact (IH st1 Hn Hd).
    + injection Hd as <- <-. exact Hn.
Qed.

(** *** Stream mode *)

Lemma accumulate_from (chunks : list string) (data : string) :
  fold_left (fun data chunk => data ++ chunk) chunks data
  = data ++ String.concat "" chunks.
Proof.
  revert data. induction chunks as [| chunk chunks IH]; intros data.
  - cbn. symmetry. apply append_nil_r.
  - cbn [fold_left]. rewrite IH, append_assoc. f_equal.
    destruct chunks; cbn; [now rewrite append_nil_r | reflexivity].
Qed.

Lemma accumulate_concat (chunks : list string) :
  accumulate chunks = String.concat "" chunks.
Proof. unfold accumulate. now rewrite accumulate_from. Qed.

(** *** Jobs made from a directory *)


(** *** Writing in place *)

Lemma processNext_file_written
    (st : State) (path : string) (rest : list string) (info : Stats)
    (data code : string) :
  pending st = path :: rest ->
  stat (fs st) path = inr info ->
  isDirectory info = false ->
  readFile (fs st) path = inr data ->
  (if modernizeJS_flag options then modernizeJS else convert)
    data (setFilename path (baseOptions options)) = inr code ->
  events (stateOf (processNext options callback st))
  = (events st
     ++ [Stat path; ConsoleLog (path ++ " → " ++ outputPath path);
         ReadFile path; Engine path data;
         WriteFile (outputPath path) code])%list.
Proof.
  intros Hp Hstat Hfile Hread Hcode.
  unfold processNext, processPath, processFile.
  rewrite Hp. cbn [logEvents fs]. rewrite Hstat, Hfile.
  cbn [logEvents fs]. rewrite Hread. unfold runWithCode.
  destruct (modernizeJS_flag options); rewrite Hcode;
    unfold logEvents; cbn [fs events errors pending];
    destruct (writeFile _ _ _) as [fs' [err |]];
    cbn [stateOf pushError events]; rewrite <- !app_assoc; reflexivity.
Qed.


End DriverFacts.

Section EntryPoint.

Variable Err : Type.
Variable FS : Type.
Variable stat : FS -> string -> Err + Stats.
Variable readdir : FS -> string -> Err + list string.
Variable readFile : FS -> string -> Err + string.
Variable writeFile : FS -> string -> string -> FS * option Err.
Variable convert : string -> Options -> Err + string.
Variable modernizeJS : string -> Options -> Err + string.
Variable PatchError_detect : Err -> bool.
Variable PatchError_prettyPrint : Err -> string.

Local Abbreviation run :=
  (run Err FS stat readdir readFile writeFile convert modernizeJS
     PatchError_detect PatchError_prettyPrint).

(** C8.  Without paths on the command line the chunks of the standard
    input are all gathered first; the engine is called once, on their
    concatenation and under the name "stdin"; when it returns code, that
    code is written to the standard output in one write.  These two are
    the only events of the run, and the filesystem is the one the run
    started with. *)
Theorem stream_mode_single_conversion
    (args : list string) (options : CLIOptions) (fs0 : FS)
    (chunks : list string) (fuel : nat) (code : string) :
  parseArguments args = ParsedOptions options ->
  paths options = [] ->
  (if modernizeJS_flag options then modernizeJS else convert)
    (String.concat "" chunks) (setFilename "stdin" (baseOptions options))
  = inr code ->
  run args fs0 chunks fuel
  = Some (StreamEnd,
          mkState [] [] fs0
            [Engine "stdin" (String.concat "" chunks); StdoutWrite code]).
Proof.
  intros Hparse Hpaths Hcode. unfold run.
  rewrite Hparse, Hpaths. unfold runWithStdio, runWithCode.
  rewrite accumulate_concat.
  destruct (modernizeJS_flag options); rewrite Hcode; reflexivity.
Qed.


End EntryPoint.

(** ** Runs on the fixture *)

(** C1.  On [fileA; fileB; fileC] with fileB missing, the run converts
    fileA, records the stat error of fileB and stops there: fileC stays
    on the work list and is never classified, and the completion
    callback, although one was passed, is never called. *)
Theorem stat_failure_abandons_work_list :
  Fixture.runWithPaths ["a.coffee"; "b.coffee"; "c.coffee"]
    Fixture.convertMode true Fixture.fsABC 10
  = Some (Stalled,
          mkState ["c.coffee"] ["ENOENT"]
            (("a.js", Fixture.File "/*js*/a = 1") :: Fixture.fsABC)
            [Stat "a.coffee"; ConsoleLog "a.coffee → a.js";
             ReadFile "a.coffee"; Engine "a.coffee" "a = 1";
             WriteFile "a.js" "/*js*/a = 1"; Stat "b.coffee"]).
Proof. vm_compute. reflexivity. Qed.

(** The same filesystem with fileB left out of the arguments: the run
    drains and the callback receives the (empty) errors. *)
Example without_missing_file_the_run_drains :
  Fixture.runWithPaths ["a.coffee"; "c.coffee"]
    Fixture.convertMode true Fixture.fsABC 10
  = Some (Drained,
          mkState [] []
            (("c.js", Fixture.File "/*js*/c = 3")
             :: ("a.js", Fixture.File "/*js*/a = 1") :: Fixture.fsABC)
            [Stat "a.coffee"; ConsoleLog "a.coffee → a.js";
             ReadFile "a.coffee"; Engine "a.coffee" "a = 1";
             WriteFile "a.js" "/*js*/a = 1";
             Stat "c.coffee"; ConsoleLog "c.coffee → c.js";
             ReadFile "c.coffee"; Engine "c.coffee" "c = 3";
             WriteFile "c.js" "/*js*/c = 3"; Callback []]).
Proof. vm_compute. reflexivity. Qed.



Lemma conversion_error_is_fatal_witness :
  Fixture.runWithPaths ["good.coffee"; "bad.coffee"; "good.coffee"]
    Fixture.convertMode true Fixture.fsBad 5
  = Some (Exited 1,
          mkState ["good.coffee"] []
            (("good.js", Fixture.File "/*js*/b = 2") :: Fixture.fsBad)
            [Stat "good.coffee"; ConsoleLog "good.coffee → good.js";
             ReadFile "good.coffee"; Engine "good.coffee" "b = 2";
             WriteFile "good.js" "/*js*/b = 2";
             Stat "bad.coffee"; ConsoleLog "bad.coffee → bad.js";
             ReadFile "bad.coffee"; Engine "bad.coffee" "PATCH a =";
             ConsoleError "bad.coffee: PatchError: unexpected token"]).
Proof.
  apply (conversion_error_is_fatal Fixture.Err Fixture.FS
           Fixture.stat Fixture.readdir Fixture.readFile
           Fixture.writeFile Fixture.convert Fixture.modernizeJS
           Fixture.detect Fixture.prettyPrint Fixture.convertMode true
           (mkState ["good.coffee"; "bad.coffee"; "good.coffee"] []
                    Fixture.fsBad [])
           (mkState ["bad.coffee"; "good.coffee"] []
              (("good.js", Fixture.File "/*js*/b = 2") :: Fixture.fsBad)
              [Stat "good.coffee"; ConsoleLog "good.coffee → good.js";
               ReadFile "good.coffee"; Engine "good.coffee" "b = 2";
               WriteFile "good.js" "/*js*/b = 2"])
           1%nat "bad.coffee" ["good.coffee"] (mkStats false) "PATCH a ="
           "PatchError: unexpected token");
    [reflexivity | reflexivity | reflexivity | reflexivity | reflexivity
    | reflexivity | lia].
Defined.

(** An engine error that is not a patch error leaves the run the same
    way, uncaught. *)
Example opaque_engine_error_is_uncaught :
  Fixture.runWithPaths ["bug.coffee"; "good.coffee"]
    Fixture.convertMode true Fixture.fsBad 5
  = Some (Uncaught (Raised "RangeError"),
          mkState ["good.coffee"] [] Fixture.fsBad
            [Stat "bug.coffee"; ConsoleLog "bug.coffee → bug.js";
             ReadFile "bug.coffee"; Engine "bug.coffee" "BUG"]).
Proof. vm_compute. reflexivity. Qed.


(** The order in which the run over [D; z.coffee] classifies paths. *)
Example directory_expansion_order :
  classified (eventsOf (Fixture.run ["D"; "z.coffee"] Fixture.fsD [] 10))
  = ["D"; "D/x.coffee"; "D/y.coffee"; "z.coffee"].
Proof. vm_compute. reflexivity. Qed.

Lemma stream_mode_single_conversion_witness :
  Fixture.run [] Fixture.fsABC ["a ="; " 1"] 0
  = Some (StreamEnd,
          mkState [] [] Fixture.fsABC
            [Engine "stdin" "a = 1"; StdoutWrite "/*js*/a = 1"]).
Proof.
  apply (stream_mode_single_conversion Fixture.Err Fixture.FS
           Fixture.stat Fixture.readdir Fixture.readFile
           Fixture.writeFile Fixture.convert Fixture.modernizeJS
           Fixture.detect Fixture.prettyPrint
           [] Fixture.convertMode Fixture.fsABC ["a ="; " 1"] 0%nat
           "/*js*/a = 1");
    reflexivity.
Defined.




(** * Further facts

    ** Facts about the arguments *)

Lemma option_starts_with_dash (arg : string) :
  In arg optionNames -> Js.startsWith arg "-" = true.
Proof.
  intros H. cbn in H.
  repeat (destruct H as [<- | H]; [reflexivity |]). destruct H.
Qed.

Lemma not_option_tests (arg : string) :
  ~ In arg optionNames ->
  forallb (fun name => negb (arg =? name)%string) optionNames = true.
Proof.
  intros H. apply forallb_forall. intros name Hin.
  apply negb_true_iff, String.eqb_neq. intros ->. exact (H Hin).
Qed.

Lemma parseLoop_path (arg : string) (rest acc : list string)
    (base : Options) (mjs : bool) :
  Js.startsWith arg "-" = false ->
  parseLoop (arg :: rest) acc base mjs
  = parseLoop rest (acc ++ [arg]) base mjs.
Proof.
  intros Hd.
  assert (Hn : ~ In arg optionNames).
  { intros Hin. apply option_starts_with_dash in Hin. congruence. }
  apply not_option_tests in Hn. cbn [forallb optionNames] in Hn.
  repeat (apply andb_prop in Hn; destruct Hn as [?H Hn]).
  repeat match goal with
         | H : negb _ = true |- _ => apply negb_true_iff in H
         end.
  cbn [parseLoop].
  repeat match goal with
         | H : (arg =? _)%string = false |- _ => rewrite H; clear H
         end.
  cbn [orb]. rewrite Hd. reflexivity.
Qed.

Lemma parseLoop_unrecognized (arg : string) (rest acc : list string)
    (base : Options) (mjs : bool) :
  Js.startsWith arg "-" = true -> ~ In arg optionNames ->
  parseLoop (arg :: rest) acc base mjs
  = ParsedUnrecognized ("Error: unrecognized option '" ++ arg ++ "'").
Proof.
  intros Hd Hn.
  apply not_option_tests in Hn. cbn [forallb optionNames] in Hn.
  repeat (apply andb_prop in Hn; destruct Hn as [?H Hn]).
  repeat match goal with
         | H : negb _ = true |- _ => apply negb_true_iff in H
         end.
  cbn [parseLoop].
  repeat match goal with
         | H : (arg =? _)%string = false |- _ => rewrite H; clear H
         end.
  cbn [orb]. rewrite Hd. reflexivity.
Qed.

Lemma parseLoop_plain (args acc : list string) (base : Options) (mjs : bool) :
  forallb (fun arg => negb (Js.startsWith arg "-")) args = true ->
  parseLoop args acc base mjs
  = ParsedOptions (mkCLIOptions (acc ++ args) base mjs).
Proof.
  revert acc. induction args as [| arg args IH]; intros acc H.
  - cbn. now rewrite app_nil_r.
  - cbn in H. apply andb_prop in H. destruct H as [Ha H].
    apply negb_true_iff in Ha. rewrite parseLoop_path by exact Ha.
    rewrite IH by exact H. now rewrite <- app_assoc.
Qed.

Lemma parseLoop_app_aux (n : nat) :
  forall (pre : list string) (acc : list string) (base : Options) (mjs : bool)
         (o : CLIOptions) (rest : list string),
    (List.length pre <= n)%nat ->
    parseLoop pre acc base mjs = ParsedOptions o ->
    parseLoop (pre ++ rest) acc base mjs
    = parseLoop rest (paths o) (baseOptions o) (modernizeJS_flag o).
Proof.
  induction n as [| n IH]; intros pre acc base mjs o rest Hlen Hp.
  - destruct pre; [| cbn in Hlen; lia]. cbn in Hp. injection Hp as <-. reflexivity.
  - destruct pre as [| arg pre].
    + cbn in Hp. injection Hp as <-. reflexivity.
    + cbn [List.length] in Hlen. cbn [app parseLoop] in Hp |- *.
      repeat match type of Hp with
             | (if ?b then _ else _) = _ =>
                 destruct b; [first [discriminate | apply IH; [lia | exact Hp]] |]
             end.
      destruct (arg =? "--safe-import-function-identifiers")%string.
      * destruct pre as [| ids pre]; [discriminate |].
        cbn [app]. apply IH; [cbn [List.length] in Hlen; lia | exact Hp].
      * repeat match type of Hp with
               | (if ?b then _ else _) = _ =>
                   destruct b;
                   [first [discriminate | apply IH; [lia | exact Hp]] |]
               end.
        apply IH; [lia | exact Hp].
Qed.

Lemma parseLoop_app (pre rest acc : list string) (base : Options) (mjs : bool)
    (o : CLIOptions) :
  parseLoop pre acc base mjs = ParsedOptions o ->
  parseLoop (pre ++ rest) acc base mjs
  = parseLoop rest (paths o) (baseOptions o) (modernizeJS_flag o).
Proof. apply (parseLoop_app_aux (List.length pre)). lia. Qed.

Lemma option_is_documented (argv1 arg : string) :
  In arg optionNames ->
  exists line, In line (usage argv1) /\ includes line arg = true.
Proof.
  intros H.
  assert (Hb : existsb (fun line => includes line arg) (skipn 2 (usage argv1))
               = true).
  { cbn [optionNames In] in H.
    repeat (destruct H as [<- | H]; [vm_compute; reflexivity |]).
    destruct H. }
  apply existsb_exists in Hb. destruct Hb as (line & Hin & Hinc).
  exists line. split; [| exact Hinc].
  rewrite <- (firstn_skipn 2 (usage argv1)). apply in_or_app. now right.
Qed.

(** X4.  The usage text names every option that [parseArguments]
    accepts: an argument that starts with '-' and occurs in no line of
    the usage text is rejected as an unrecognized option. *)
Theorem undocumented_option_is_rejected
    (argv1 arg : string) (rest : list string) :
  Js.startsWith arg "-" = true ->
  (forall line, In line (usage argv1) -> includes line arg = false) ->
  parseArguments (arg :: rest)
  = ParsedUnrecognized ("Error: unrecognized option '" ++ arg ++ "'").
Proof.
  intros Hd Hno. apply parseLoop_unrecognized; [exact Hd |].
  intros Hin. destruct (option_is_documented argv1 arg Hin) as (line & Hl & Hi).
  rewrite (Hno line Hl) in Hi. discriminate.
Qed.

Lemma splitComma_nonempty (s : string) : Js.splitComma s <> [].
Proof.
  induction s as [| c s IH]; cbn; [discriminate |].
  destruct (Ascii.eqb c ","); [discriminate |].
  destruct (Js.splitComma s); [discriminate | discriminate].
Qed.

Lemma splitComma_concat (s : string) :
  String.concat "," (Js.splitComma s) = s.
Proof.
  induction s as [| c s IH]; [reflexivity |].
  cbn [Js.splitComma]. destruct (Ascii.eqb_spec c ",") as [-> | Hc].
  - pose proof (splitComma_nonempty s) as Hne.
    destruct (Js.splitComma s) as [| piece pieces] eqn:E; [congruence |].
    change (String.concat "," ("" :: piece :: pieces))
      with ("" ++ "," ++ String.concat "," (piece :: pieces)).
    rewrite IH. reflexivity.
  - pose proof (splitComma_nonempty s) as Hne.
    destruct (Js.splitComma s) as [| piece pieces] eqn:E; [congruence |].
    destruct pieces as [| piece' pieces].
    + cbn in IH |- *. now rewrite IH.
    + change (String.concat "," (String c piece :: piece' :: pieces))
        with (String c piece ++ "," ++ String.concat "," (piece' :: pieces)).
      change (String.concat "," (piece :: piece' :: pieces))
        with (piece ++ "," ++ String.concat "," (piece' :: pieces)) in IH.
      cbn [append]. f_equal. exact IH.
Qed.

Lemma splitComma_commaFree (s : string) :
  forallb commaFree (Js.splitComma s) = true.
Proof.
  induction s as [| c s IH]; [reflexivity |].
  cbn [Js.splitComma]. destruct (Ascii.eqb c ",") eqn:Hc.
  - cbn. exact IH.
  - destruct (Js.splitComma s) as [| piece pieces]; [cbn; now rewrite Hc |].
    cbn in IH |- *. unfold commaFree in *. cbn. rewrite Hc. exact IH.
Qed.

Lemma splitComma_piece (x s : string) :
  commaFree x = true ->
  Js.splitComma (x ++ "," ++ s) = x :: Js.splitComma s.
Proof.
  unfold commaFree. induction x as [| c x IH]; intros Hx; [reflexivity |].
  cbn in Hx. apply andb_true_iff in Hx. destruct Hx as [Hc Hx].
  apply negb_true_iff in Hc.
  change (String c x ++ "," ++ s) with (String c (x ++ "," ++ s)).
  cbn [Js.splitComma]. rewrite Hc, (IH Hx). reflexivity.
Qed.

Lemma splitComma_single (x : string) :
  commaFree x = true -> Js.splitComma x = [x].
Proof.
  unfold commaFree. induction x as [| c x IH]; intros Hx; [reflexivity |].
  cbn in Hx. apply andb_true_iff in Hx. destruct Hx as [Hc Hx].
  apply negb_true_iff in Hc.
  cbn [Js.splitComma]. rewrite Hc, (IH Hx). reflexivity.
Qed.

Lemma splitComma_of_concat (names : list string) :
  forallb commaFree names = true -> names <> [] ->
  Js.splitComma (String.concat "," names) = names.
Proof.
  induction names as [| x names IH]; intros Hfree Hne; [congruence |].
  cbn [forallb] in Hfree. apply andb_true_iff in Hfree.
  destruct Hfree as [Hx Hfree].
  destruct names as [| y names]; [exact (splitComma_single x Hx) |].
  change (String.concat "," (x :: y :: names))
    with (x ++ "," ++ String.concat "," (y :: names)).
  rewrite (splitComma_piece x _ Hx), (IH Hfree); [reflexivity | discriminate].
Qed.

(** *** Paths and options on the command line *)

(** X1.  Arguments that do not start with '-' are taken as paths, in
    the order given: behind arguments that parse to the options [o],
    such arguments leave the options as they are and come after the
    paths of [o]. *)
Theorem plain_arguments_are_paths
    (pre rest : list string) (o : CLIOptions) :
  parseArguments pre = ParsedOptions o ->
  forallb (fun arg => negb (Js.startsWith arg "-")) rest = true ->
  parseArguments (pre ++ rest)
  = ParsedOptions
      (mkCLIOptions (paths o ++ rest) (baseOptions o) (modernizeJS_flag o)).
Proof.
  unfold parseArguments. intros Hpre Hrest.
  rewrite (parseLoop_app pre rest _ _ _ o Hpre).
  apply parseLoop_plain. exact Hrest.
Qed.

(** X2.  The argument after --safe-import-function-identifiers is
    always taken as the list of identifiers, whatever it looks like (an
    option, -h, a path): it is never parsed as an argument of its own.
    The list stored is the one list of comma-free names, at least one,
    that gives the argument back when joined with commas. *)
Theorem identifier_list_is_next_argument
    (pre rest : list string) (o : CLIOptions) (ids : string) :
  parseArguments pre = ParsedOptions o ->
  forallb (fun arg => negb (Js.startsWith arg "-")) rest = true ->
  exists names,
    parseArguments
      (pre ++ "--safe-import-function-identifiers" :: ids :: rest)
    = ParsedOptions
        (mkCLIOptions (paths o ++ rest)
           (setSafeImportFunctionIdentifiers names (baseOptions o))
           (modernizeJS_flag o))
    /\ names <> []
    /\ forallb commaFree names = true
    /\ String.concat "," names = ids
    /\ (forall names',
          forallb commaFree names' = true ->
          String.concat "," names' = ids -> names' <> [] ->
          names' = names).
Proof.
  unfold parseArguments. intros Hpre Hrest.
  exists (Js.splitComma ids).
  rewrite (parseLoop_app pre _ _ _ _ o Hpre).
  split; [cbn [parseLoop]; apply parseLoop_plain; exact Hrest |].
  split; [apply splitComma_nonempty |].
  split; [apply splitComma_commaFree |].
  split; [apply splitComma_concat |].
  intros names' Hfree Hcat Hne. subst ids.
  symmetry. apply splitComma_of_concat; assumption.
Qed.

(** ** Facts about the runs over paths *)

Section RunFacts.

Variable Err : Type.
Variable FS : Type.
Variable stat : FS -> string -> Err + Stats.
Variable readdir : FS -> string -> Err + list string.
Variable readFile : FS -> string -> Err + string.
Variable writeFile : FS -> string -> string -> FS * option Err.
Variable convert : string -> Options -> Err + string.
Variable modernizeJS : string -> Options -> Err + string.
Variable PatchError_detect : Err -> bool.
Variable PatchError_prettyPrint : Err -> string.
Variable options : CLIOptions.
Variable callback : bool.

Local Abbreviation processPath :=
  (processPath Err FS stat readdir readFile writeFile convert modernizeJS
     PatchError_detect PatchError_prettyPrint).
Local Abbreviation processNext :=
  (processNext Err FS stat readdir readFile writeFile convert modernizeJS
     PatchError_detect PatchError_prettyPrint).
Local Abbreviation drain :=
  (drain Err FS stat readdir readFile writeFile convert modernizeJS
     PatchError_detect PatchError_prettyPrint).
Local Abbreviation steps :=
  (steps Err FS stat readdir readFile writeFile convert modernizeJS
     PatchError_detect PatchError_prettyPrint).
Local Abbreviation runWithCode :=
  (runWithCode Err convert modernizeJS PatchError_detect
     PatchError_prettyPrint).
Local Abbreviation runWithPaths :=
  (runWithPaths Err FS stat readdir readFile writeFile convert modernizeJS
     PatchError_detect PatchError_prettyPrint).
Local Abbreviation State := (State Err FS).
Local Abbreviation Event := (Event Err).
Local Abbreviation engineOf := (engineOf Err convert modernizeJS).
Local Abbreviation fileEvents := (fileEvents Err).
Local Abbreviation StepCase :=
  (StepCase Err FS stat readdir readFile writeFile convert modernizeJS
     PatchError_detect PatchError_prettyPrint options).
Local Abbreviation replayWrites := (replayWrites Err FS writeFile).
Local Abbreviation Justified := (Justified Err convert modernizeJS options).

Lemma processNext_cases (st : State) (path : string) (rest : list string) :
  pending st = path :: rest ->
  StepCase st path rest (processNext options callback st).
Proof.
  intros Hp.
  unfold processNext, processPath, processDirectory, processFile, runWithCode,
    pushError, unshift, logEvents.
  rewrite Hp. cbn [pending errors fs events].
  destruct (stat (fs st) path) as [err | info] eqn:Hs.
  - now apply case_stat_error.
  - destruct (isDirectory info) eqn:Hd; cbn [pending errors fs events].
    + destruct (readdir (fs st) path) as [err | children] eqn:Hr;
        cbn [pending errors fs events]; rewrite <- app_assoc.
      * now apply case_readdir_error with (info := info).
      * now apply case_directory with (info := info).
    + destruct (readFile (fs st) path) as [err | data] eqn:Hr.
      * cbn [pending errors fs events].
        rewrite <- !app_assoc. now apply case_read_error with (info := info).
      * assert (He : (if modernizeJS_flag options
                      then modernizeJS data (setFilename path (baseOptions options))
                      else convert data (setFilename path (baseOptions options)))
                     = engineOf options data
                         (setFilename path (baseOptions options)))
          by (unfold engineOf; destruct (modernizeJS_flag options); reflexivity).
        rewrite He.
        destruct (engineOf options data (setFilename path (baseOptions options)))
          as [err | code] eqn:Hres.
        -- destruct (PatchError_detect err) eqn:Hdet;
             cbn [pending errors fs events]; rewrite <- !app_assoc.
           ++ now apply case_patch_error with (info := info).
           ++ now apply case_other_error with (info := info).
        -- cbn [pending errors fs events].
           destruct (writeFile (fs st) (outputPath path) code)
             as [fs' [err |]] eqn:Hw;
             cbn [pending errors fs events]; rewrite <- !app_assoc.
           ++ now apply case_write_error with (info := info).
           ++ now apply case_written with (info := info).
Qed.


Lemma classified_app (a b : list Event) :
  classified (a ++ b) = (classified a ++ classified b)%list.
Proof.
  induction a as [| e a IH]; [reflexivity |].
  destruct e; cbn; rewrite ?IH; reflexivity.
Qed.

Lemma processNext_empty (st : State) :
  pending st = [] ->
  processNext options callback st
  = Stop Drained (if callback
                  then mkState [] (errors st) (fs st)
                         (events st ++ [Callback (errors st)])
                  else st).
Proof.
  intros Hp. unfold processNext, logEvents. rewrite Hp.
  destruct callback; reflexivity.
Qed.

(** *** Non-fatal errors *)

(** X6.  An error of [readdir], of [readFile] or of [writeFile] is put
    on [errors] and the run goes on: the callback chain ends in a call
    of [processNext] with the rest of the work list untouched.  After
    a failed read the engine is not called and nothing is written. *)
Theorem listing_read_write_errors_are_recorded
    (st : State) (path : string) (rest : list string) (info : Stats) :
  pending st = path :: rest ->
  stat (fs st) path = inr info ->
  (forall err,
      isDirectory info = true ->
      readdir (fs st) path = inl err ->
      processNext options callback st
      = Next (mkState rest (errors st ++ [err]) (fs st)
                (events st ++ [Stat path; Readdir path])))
  /\ (forall err,
        isDirectory info = false ->
        readFile (fs st) path = inl err ->
        processNext options callback st
        = Next (mkState rest (errors st ++ [err]) (fs st)
                  (events st
                   ++ [Stat path;
                       ConsoleLog (path ++ " → " ++ outputPath path);
                       ReadFile path])))
  /\ (forall data code fs' err,
        isDirectory info = false ->
        readFile (fs st) path = inr data ->
        (if modernizeJS_flag options then modernizeJS else convert)
          data (setFilename path (baseOptions options)) = inr code ->
        writeFile (fs st) (outputPath path) code = (fs', Some err) ->
        processNext options callback st
        = Next (mkState rest (errors st ++ [err]) fs'
                  (events st
                   ++ [Stat path;
                       ConsoleLog (path ++ " → " ++ outputPath path);
                       ReadFile path; Engine path data;
                       WriteFile (outputPath path) code]))).
Proof.
  intros Hp Hs.
  pose proof (processNext_cases st path rest Hp) as Hc.
  repeat split.
  - intros err Hd Hr. inversion Hc; congruence.
  - intros err Hd Hr. inversion Hc; try congruence.
    assert (err0 = err) by congruence. subst err0. reflexivity.
  - intros data code fs' err Hd Hr He Hw.
    fold (engineOf options) in He.
    inversion Hc; try congruence.
    assert (data0 = data) by congruence. subst data0.
    assert (code0 = code) by congruence. subst code0.
    assert (fs'0 = fs') by congruence. subst fs'0.
    assert (err0 = err) by congruence. subst err0. reflexivity.
Qed.

(** *** Growth of [errors] and of the events *)

Lemma step_growth (st : State) :
  exists more new,
    errors (stateOf (processNext options callback st))
    = (errors st ++ more)%list
    /\ events (stateOf (processNext options callback st))
       = (events st ++ new)%list
    /\ (List.length more <= List.length (classified new))%nat
    /\ (List.length (classified new) <= 1)%nat.
Proof.
  destruct (pending st) as [| path rest] eqn:Hp.
  - rewrite (processNext_empty st Hp). exists [].
    destruct callback.
    + exists [Callback (errors st)]. cbn. rewrite app_nil_r. auto.
    + exists []. cbn. rewrite !app_nil_r. auto.
  - destruct (processNext_cases st path rest Hp); cbn [stateOf errors events].
    + exists [err], [Stat path]. cbn. auto.
    + exists [err], [Stat path; Readdir path]. cbn. auto.
    + exists [], [Stat path; Readdir path]. cbn. rewrite app_nil_r. auto.
    + exists [err]. eexists. split; [reflexivity |]. split; [reflexivity |].
      cbn. auto.
    + exists []. eexists. rewrite app_nil_r.
      split; [reflexivity |]. split; [reflexivity |]. cbn. auto.
    + exists []. eexists. rewrite app_nil_r.
      split; [reflexivity |]. split; [reflexivity |]. cbn. auto.
    + exists []. eexists. rewrite app_nil_r.
      split; [reflexivity |]. split; [reflexivity |]. cbn. auto.
    + exists [err]. eexists.
      split; [reflexivity |]. split; [reflexivity |]. cbn. auto.
Qed.

(** X7.  [errors] and the trace only grow, and each classified path
    adds at most one error: after [n] calls of [processNext] the errors
    are the earlier ones followed by at most as many new ones as paths
    were classified in between, and at most [n] paths were. *)
Theorem errors_grow_with_classified_paths (n : nat) (st : State) :
  exists more new,
    errors (stateOf (steps options callback n st)) = (errors st ++ more)%list
    /\ events (stateOf (steps options callback n st))
       = (events st ++ new)%list
    /\ (List.length more <= List.length (classified new))%nat
    /\ (List.length (classified new) <= n)%nat.
Proof.
  revert st. induction n as [| n IH]; intros st.
  - exists [], []. cbn. rewrite !app_nil_r. auto.
  - cbn [steps].
    destruct (step_growth st) as (more1 & new1 & He1 & Hv1 & Hl1 & Hc1).
    destruct (processNext options callback st) as [st1 | h st1].
    + cbn [stateOf] in He1, Hv1.
      destruct (IH st1) as (more2 & new2 & He2 & Hv2 & Hl2 & Hc2).
      exists (more1 ++ more2)%list, (new1 ++ new2)%list.
      rewrite He2, Hv2, He1, Hv1, <- !app_assoc, classified_app, !length_app.
      repeat split; lia.
    + cbn [stateOf] in He1 |- *. exists more1, new1.
      repeat split; try assumption; lia.
Qed.


(** *** The completion callback *)

Lemma drain_callback (fuel : nat) (st st' : State) (h : Halt Err) :
  callback = true ->
  (forall es, ~ In (Callback es) (events st)) ->
  drain options callback fuel st = Some (h, st') ->
  match h with
  | Drained =>
      exists evs,
        events st' = (evs ++ [Callback (errors st')])%list
        /\ forall es, ~ In (Callback es) evs
  | _ => forall es, ~ In (Callback es) (events st')
  end.
Proof.
  intros Hcb. revert st.
  induction fuel as [| fuel IH]; intros st Hev Hd; [discriminate |].
  cbn [drain] in Hd. destruct (pending st) as [| path rest] eqn:Hp.
  - rewrite (processNext_empty st Hp), Hcb in Hd.
    injection Hd as <- <-. exists (events st). split; [reflexivity | exact Hev].
  - revert Hd.
    destruct (processNext_cases st path rest Hp); intros Hd;
      first [ injection Hd as <- <-; cbn [events]; unfold fileEvents;
              not_in_new Hev
            | apply IH in Hd;
              [exact Hd | cbn [events]; unfold fileEvents; not_in_new Hev] ].
Qed.

(** X8.  When a completion callback is given, it is called when the
    work list has drained: once, as the last thing the run does, and
    with all the errors of the run; a run that ends in another way
    never calls it. *)
Theorem callback_called_once_when_drained
    (paths0 : list string) (fs0 : FS) (fuel : nat) (h : Halt Err)
    (st' : State) :
  callback = true ->
  runWithPaths paths0 options callback fs0 fuel = Some (h, st') ->
  match h with
  | Drained =>
      exists evs,
        events st' = (evs ++ [Callback (errors st')])%list
        /\ forall es, ~ In (Callback es) evs
  | _ => forall es, ~ In (Callback es) (events st')
  end.
Proof.
  intros Hcb Hrun. apply (drain_callback fuel _ st' h Hcb) in Hrun;
    [exact Hrun | intros es []].
Qed.

(** *** What is written *)

Lemma justified_more (evs new : list Event) :
  Justified evs ->
  (forall out code, ~ In (WriteFile out code) new) ->
  Justified (evs ++ new).
Proof.
  intros Hj Hnew out code Hin. apply in_app_or in Hin.
  destruct Hin as [Hin | Hin]; [| destruct (Hnew _ _ Hin)].
  destruct (Hj out code Hin) as (before & after & path & data & -> & Ho & He).
  exists before, (after ++ new)%list, path, data.
  split; [| split; assumption].
  rewrite <- !app_assoc. reflexivity.
Qed.

Lemma justified_write (evs : list Event) (path data code : string) :
  Justified evs ->
  engineOf options data (setFilename path (baseOptions options)) = inr code ->
  Justified (evs ++ fileEvents path data
             ++ [WriteFile (outputPath path) code]).
Proof.
  intros Hj He out c Hin. apply in_app_or in Hin.
  destruct Hin as [Hin | Hin].
  - destruct (Hj out c Hin) as (before & after & p & d & -> & Ho & Hc).
    exists before,
      (after ++ fileEvents path data ++ [WriteFile (outputPath path) code])%list,
      p, d.
    split; [| split; assumption].
    rewrite <- !app_assoc. reflexivity.
  - cbn in Hin.
    repeat (destruct Hin as [Hin | Hin]; [discriminate |]).
    destruct Hin as [Hin | []]. injection Hin as <- <-.
    exists evs, [], path, data. repeat split. exact He.
Qed.

Lemma step_justified (st : State) :
  Justified (events st) ->
  Justified (events (stateOf (processNext options callback st))).
Proof.
  intros Hj. destruct (pending st) as [| path rest] eqn:Hp.
  - rewrite (processNext_empty st Hp). destruct callback; [| exact Hj].
    cbn [stateOf events]. apply justified_more; [exact Hj | no_write].
  - destruct (processNext_cases st path rest Hp); cbn [stateOf events];
      first [ apply justified_write; assumption
            | apply justified_more; [exact Hj | unfold fileEvents; no_write] ].
Qed.


(** *** The filesystem *)

Lemma replayWrites_app (a b : list Event) (fs0 : FS) :
  replayWrites (a ++ b) fs0 = replayWrites b (replayWrites a fs0).
Proof. apply fold_left_app. Qed.

Lemma step_replay (fs0 : FS) (st : State) :
  fs st = replayWrites (events st) fs0 ->
  fs (stateOf (processNext options callback st))
  = replayWrites (events (stateOf (processNext options callback st))) fs0.
Proof.
  intros Hfs. destruct (pending st) as [| path rest] eqn:Hp.
  - rewrite (processNext_empty st Hp). destruct callback; [| exact Hfs].
    cbn [stateOf events fs]. rewrite replayWrites_app, <- Hfs. reflexivity.
  - destruct (processNext_cases st path rest Hp) as
      [ | | | | | | ? ? ? ? ? ? ? ? Hw | ? ? ? ? ? ? ? ? ? Hw];
      cbn [stateOf events fs]; rewrite replayWrites_app, <- Hfs;
      cbn [replayWrites fileEvents fold_left app]; try reflexivity;
      rewrite Hw; reflexivity.
Qed.

(** X10.  The filesystem at any point of a run is the initial one
    after the writes of the run so far, in their order: nothing else
    changes it. *)
Theorem filesystem_changes_only_by_writes
    (paths0 : list string) (fs0 : FS) (n : nat) :
  fs (stateOf (steps options callback n (mkState paths0 [] fs0 [])))
  = replayWrites
      (events (stateOf (steps options callback n (mkState paths0 [] fs0 []))))
      fs0.
Proof.
  assert (Hall : forall m st, fs st = replayWrites (events st) fs0 ->
            fs (stateOf (steps options callback m st))
            = replayWrites (events (stateOf (steps options callback m st))) fs0).
  { induction m as [| m IH]; intros st Hfs; [exact Hfs |].
    cbn [steps]. pose proof (step_replay fs0 st Hfs) as Hs.
    destruct (processNext options callback st) as [st1 | h st1];
      [apply IH | ]; exact Hs. }
  apply Hall. reflexivity.
Qed.


(** *** Runs over plain files *)

Lemma drain_files (pend : list string) :
  (forall fs1 p, In p pend ->
     exists info, stat fs1 p = inr info /\ isDirectory info = false) ->
  (forall data o, exists code, engineOf options data o = inr code) ->
  forall st, pending st = pend ->
    exists st',
      drain options callback (S (List.length pend)) st = Some (Drained, st')
      /\ pending st' = []
      /\ classified (events st')
         = (classified (events st) ++ pend)%list.
Proof.
  intros Hstat Heng. induction pend as [| path rest IH]; intros st Hp.
  - cbn [List.length drain]. rewrite (processNext_empty st Hp).
    eexists. split; [reflexivity |]. rewrite app_nil_r.
    destruct callback; cbn [pending events]; [| auto].
    rewrite classified_app, app_nil_r. auto.
  - cbn [List.length]. change (drain options callback (S (S (List.length rest))) st)
      with (match processNext options callback st with
            | Next st1 => drain options callback (S (List.length rest)) st1
            | Stop h st1 => Some (h, st1)
            end).
    destruct (Hstat (fs st) path (or_introl eq_refl)) as (info & Hs & Hd).
    assert (Hrest : forall fs1 p, In p rest ->
              exists info, stat fs1 p = inr info /\ isDirectory info = false)
      by (intros fs1 p Hin; apply Hstat; now right).
    destruct (processNext_cases st path rest Hp) as
      [ err Hs' | info' err Hs' Hd' Hr | info' children Hs' Hd' Hr
      | info' err Hs' Hd' Hr
      | info' data err Hs' Hd' Hr He Hdet | info' data err Hs' Hd' Hr He Hdet
      | info' data code fs' Hs' Hd' Hr He Hw
      | info' data code fs' err Hs' Hd' Hr He Hw ];
      try congruence;
      try (destruct (Heng data (setFilename path (baseOptions options)))
             as (code' & Hc'); congruence);
      (cbv beta iota;
       lazymatch goal with
       | |- exists _, ?f ?s = _ /\ _ =>
           destruct (IH Hrest s eq_refl) as (st' & Hdr & Hpe & Hcl)
       end;
       exists st'; split; [exact Hdr |]; split; [exact Hpe |];
       rewrite Hcl; cbn [events]; rewrite !classified_app; cbn;
       rewrite <- app_assoc; reflexivity).
Qed.


(** *** How a run ends *)

Lemma drain_end (fuel : nat) (st st' : State) (h : Halt Err) :
  drain options callback fuel st = Some (h, st') ->
  match h with
  | Drained => pending st' = []
  | Stalled =>
      exists evs path err errs,
        events st' = (evs ++ [Stat path])%list
        /\ stat (fs st') path = inl err
        /\ errors st' = (errs ++ [err])%list
  | Exited status =>
      status = 1
      /\ exists evs path data err,
           events st'
           = (evs ++ [Engine path data;
                      ConsoleError (path ++ ": "
                                    ++ PatchError_prettyPrint err)])%list
           /\ engineOf options data (setFilename path (baseOptions options))
              = inl err
           /\ PatchError_detect err = true
  | Uncaught e =>
      exists evs path data err,
        e = Raised err
        /\ events st' = (evs ++ [Engine path data])%list
        /\ engineOf options data (setFilename path (baseOptions options))
           = inl err
        /\ PatchError_detect err = false
  | StreamEnd => False
  end.
Proof.
  revert st. induction fuel as [| fuel IH]; intros st Hd; [discriminate |].
  cbn [drain] in Hd. destruct (pending st) as [| path rest] eqn:Hp.
  - rewrite (processNext_empty st Hp) in Hd. injection Hd as <- <-.
    destruct callback; first [exact Hp | reflexivity].
  - revert Hd.
    destruct (processNext_cases st path rest Hp)
      as [err Hs | info err Hs Hi Hr | info children Hs Hi Hr
          | info err Hs Hi Hr | info data err Hs Hi Hr He Hdet
          | info data err Hs Hi Hr He Hdet
          | info data code fs' Hs Hi Hr He Hw
          | info data code fs' err Hs Hi Hr He Hw];
      intros Hd; try (apply IH in Hd; exact Hd);
      injection Hd as <- <-; cbn [events fs errors].
    + exists (events st), path, err, (errors st). auto.
    + split; [reflexivity |].
      exists (events st ++ [Stat path;
                            ConsoleLog (path ++ " → " ++ outputPath path);
                            ReadFile path])%list, path, data, err.
      unfold fileEvents. rewrite <- !app_assoc. auto.
    + exists (events st ++ [Stat path;
                            ConsoleLog (path ++ " → " ++ outputPath path);
                            ReadFile path])%list, path, data, err.
      unfold fileEvents. rewrite <- !app_assoc. auto.
Qed.


End RunFacts.

(** ** Facts about the entry point *)

Section EntryFacts.

Variable Err : Type.
Variable FS : Type.
Variable stat : FS -> string -> Err + Stats.
Variable readdir : FS -> string -> Err + list string.
Variable readFile : FS -> string -> Err + string.
Variable writeFile : FS -> string -> string -> FS * option Err.
Variable convert : string -> Options -> Err + string.
Variable modernizeJS : string -> Options -> Err + string.
Variable PatchError_detect : Err -> bool.
Variable PatchError_prettyPrint : Err -> string.

Local Abbreviation run :=
  (run Err FS stat readdir readFile writeFile convert modernizeJS
     PatchError_detect PatchError_prettyPrint).

(** X3.  The arguments are parsed to the end before any work starts:
    a help option, an unknown option or a missing identifier list
    anywhere on the command line ends the process before any path
    given in front of it is touched and before the standard input is
    read.  Help gives the usage text and status 0, an unknown option
    its error line and status 1, and
    --safe-import-function-identifiers as the last argument the
    TypeError of [args[i].split]. *)
Theorem arguments_are_checked_before_any_work
    (pre rest : list string) (o : CLIOptions) (fs0 : FS)
    (chunks : list string) (fuel : nat) :
  parseArguments pre = ParsedOptions o ->
  (forall arg,
      arg = "-h" \/ arg = "--help" ->
      run (pre ++ arg :: rest) fs0 chunks fuel
      = Some (Exited 0, mkState [] [] fs0 [Usage]))
  /\ (forall arg,
        Js.startsWith arg "-" = true -> ~ In arg optionNames ->
        run (pre ++ arg :: rest) fs0 chunks fuel
        = Some (Exited 1,
                mkState [] [] fs0
                  [ConsoleError
                     ("Error: unrecognized option '" ++ arg ++ "'")]))
  /\ run (pre ++ ["--safe-import-function-identifiers"]) fs0 chunks fuel
     = Some (Uncaught TypeError, mkState [] [] fs0 []).
Proof.
  intros Hpre. unfold run, parseArguments. unfold parseArguments in Hpre.
  repeat split.
  - intros arg [-> | ->];
      rewrite (parseLoop_app pre _ _ _ _ o Hpre); reflexivity.
  - intros arg Hdash Hnew.
    rewrite (parseLoop_app pre _ _ _ _ o Hpre).
    rewrite (parseLoop_unrecognized arg rest _ _ _ Hdash Hnew). reflexivity.
  - rewrite (parseLoop_app pre _ _ _ _ o Hpre). reflexivity.
Qed.

(** X5.  In stream mode nothing is written to the standard output when
    the engine throws: after the one call of the engine the process
    either prints "stdin: " and the pretty-printed PatchError and
    leaves with status 1, or ends with the exception uncaught. *)
Theorem stream_mode_failure_writes_nothing
    (args : list string) (options : CLIOptions) (fs0 : FS)
    (chunks : list string) (fuel : nat) (err : Err) :
  parseArguments args = ParsedOptions options ->
  paths options = [] ->
  (if modernizeJS_flag options then modernizeJS else convert)
    (String.concat "" chunks) (setFilename "stdin" (baseOptions options))
  = inl err ->
  run args fs0 chunks fuel
  = Some (if PatchError_detect err
          then (Exited 1,
                mkState [] [] fs0
                  [Engine "stdin" (String.concat "" chunks);
                   ConsoleError
                     ("stdin: " ++ PatchError_prettyPrint err)])
          else (Uncaught (Raised err),
                mkState [] [] fs0
                  [Engine "stdin" (String.concat "" chunks)])).
Proof.
  intros Hparse Hpaths Hcode. unfold run.
  rewrite Hparse, Hpaths. unfold runWithStdio, runWithCode.
  rewrite accumulate_concat.
  destruct (modernizeJS_flag options); rewrite Hcode;
    destruct (PatchError_detect err); reflexivity.
Qed.

End EntryFacts.

(** ** More facts about the output path *)

Section MorePathFacts.

Import NodePath PathShape.

(** *** Suffixes *)

Lemma last_char_differs (x y : string) (a b : ascii) (s t : string) :
  a <> b ->
  x ++ s ++ String a "" <> y ++ t ++ String b "".
Proof.
  intros Hab E. apply (f_equal (fun u => rev (chars u))) in E.
  rewrite !chars_app, !rev_app_distr in E. cbn in E. congruence.
Qed.

Lemma endsWith_other_last (x s t : string) (a b : ascii) :
  a <> b ->
  Js.endsWith (x ++ s ++ String a "") (t ++ String b "") = false.
Proof.
  intros Hab.
  destruct (Js.endsWith (x ++ s ++ String a "") (t ++ String b "")) eqn:E;
    [| reflexivity].
  apply endsWith_inv in E. destruct E as (y & Hy).
  exfalso. exact (last_char_differs x y a b s t Hab Hy).
Qed.

Lemma endsWith_output_js (p : string) : Js.endsWith (outputPath p) ".js" = true.
Proof. unfold outputPath. apply endsWith_app. Qed.

Lemma coffee_not_js (x : string) :
  Js.endsWith (x ++ ".coffee") ".js" = false
  /\ Js.endsWith (x ++ ".litcoffee") ".js" = false
  /\ Js.endsWith (x ++ ".coffee.md") ".js" = false.
Proof.
  repeat split.
  - apply (endsWith_other_last x ".coffe" ".j" "e" "s"). discriminate.
  - apply (endsWith_other_last x ".litcoffe" ".j" "e" "s"). discriminate.
  - apply (endsWith_other_last x ".coffee.m" ".j" "d" "s"). discriminate.
Qed.

Lemma js_not_coffee (x : string) :
  Js.endsWith (x ++ ".js") ".coffee" = false
  /\ Js.endsWith (x ++ ".js") ".litcoffee" = false
  /\ Js.endsWith (x ++ ".js") ".coffee.md" = false.
Proof.
  repeat split.
  - apply (endsWith_other_last x ".j" ".coffe" "s" "e"). discriminate.
  - apply (endsWith_other_last x ".j" ".litcoffe" "s" "e"). discriminate.
  - apply (endsWith_other_last x ".j" ".coffee.m" "s" "d"). discriminate.
Qed.

Lemma eligible_convert_suffix (options : CLIOptions) (c : string) :
  modernizeJS_flag options = false -> eligible options c = true ->
  exists x, c = x ++ ".coffee" \/ c = x ++ ".litcoffee" \/ c = x ++ ".coffee.md".
Proof.
  unfold eligible. intros -> H.
  apply orb_prop in H. destruct H as [H | H];
    [apply orb_prop in H; destruct H as [H | H] |];
    apply endsWith_inv in H; destruct H as (x & ->); exists x; auto.
Qed.

(** X13.  The two extension filters have no name in common: a child
    that the filter of --modernize-js lets through is not let through
    without the flag, so no directory entry is eligible in both
    modes. *)
Theorem filters_are_disjoint (o1 o2 : CLIOptions) (c : string) :
  modernizeJS_flag o1 = true -> modernizeJS_flag o2 = false ->
  eligible o1 c = true -> eligible o2 c = false.
Proof.
  unfold eligible. intros -> -> H. apply endsWith_inv in H.
  destruct H as (x & ->). destruct (js_not_coffee x) as (-> & -> & ->).
  reflexivity.
Qed.

(** X14.  The output path always ends in ".js", so a file whose path
    does not end in ".js" is never overwritten by its own conversion;
    this holds for every child that the filter lets through when
    CoffeeScript is converted. *)
Theorem conversion_keeps_its_source :
  (forall p, Js.endsWith p ".js" = false -> outputPath p <> p)
  /\ (forall options dir c,
        modernizeJS_flag options = false ->
        eligible options c = true -> fileName c = true ->
        outputPath (join dir c) <> join dir c).
Proof.
  assert (H1 : forall p, Js.endsWith p ".js" = false -> outputPath p <> p).
  { intros p Hp E. pose proof (endsWith_output_js p) as H.
    rewrite E in H. congruence. }
  split; [exact H1 |].
  intros options dir c Hm He Hc. apply H1.
  rewrite join_name by exact Hc.
  destruct (eligible_convert_suffix options c Hm He) as (x & [-> | [-> | ->]]);
    rewrite <- append_assoc; apply coffee_not_js.
Qed.

Lemma coffee_not_md (x : string) :
  Js.endsWith (x ++ ".coffee") ".coffee.md" = false
  /\ Js.endsWith (x ++ ".litcoffee") ".coffee.md" = false.
Proof.
  split.
  - apply (endsWith_other_last x ".coffe" ".coffee.m" "e" "d"). discriminate.
  - apply (endsWith_other_last x ".litcoffe" ".coffee.m" "e" "d"). discriminate.
Qed.

Lemma outputs_of_extensions (pre stem : string) :
  dirPart pre = true -> fileName stem = true ->
  outputPath (pre ++ stem ++ ".coffee") = normalize (pre ++ stem) ++ ".js"
  /\ outputPath (pre ++ stem ++ ".litcoffee") = normalize (pre ++ stem) ++ ".js"
  /\ outputPath (pre ++ stem ++ ".coffee.md") = normalize (pre ++ stem) ++ ".js".
Proof.
  intros Hpre Hstem. repeat split.
  - apply (outputPath_last_extension pre stem "coffee"); try assumption;
      try reflexivity.
    change ("." ++ "coffee") with ".coffee".
    rewrite <- append_assoc. apply (proj1 (coffee_not_md (pre ++ stem))).
  - apply (outputPath_last_extension pre stem "litcoffee"); try assumption;
      try reflexivity.
    change ("." ++ "litcoffee") with ".litcoffee".
    rewrite <- append_assoc. apply (proj2 (coffee_not_md (pre ++ stem))).
  - now apply outputPath_coffee_md.
Qed.

(** X15.  Files that differ only in their CoffeeScript extension share
    one output path: beside name.coffee, the files name.litcoffee and
    name.coffee.md of the same directory all pass the filter and are
    all written to the same name.js, the later write replacing the
    earlier one. *)
Theorem extensions_share_one_output (pre stem : string) :
  dirPart pre = true -> fileName stem = true ->
  outputPath (pre ++ stem ++ ".litcoffee")
  = outputPath (pre ++ stem ++ ".coffee")
  /\ outputPath (pre ++ stem ++ ".coffee.md")
     = outputPath (pre ++ stem ++ ".coffee")
  /\ eligible (mkCLIOptions [] emptyOptions false) (stem ++ ".coffee") = true
  /\ eligible (mkCLIOptions [] emptyOptions false) (stem ++ ".litcoffee")
     = true
  /\ eligible (mkCLIOptions [] emptyOptions false) (stem ++ ".coffee.md")
     = true.
Proof.
  intros Hpre Hstem.
  destruct (outputs_of_extensions pre stem Hpre Hstem) as (H1 & H2 & H3).
  rewrite H1, H2, H3. unfold eligible. cbn [modernizeJS_flag].
  rewrite !endsWith_app. rewrite !orb_true_r. auto.
Qed.


(** *** Names without an extension *)

Lemma basenameLoop_name l rest i v :
  forallb (fun c => negb (isSlash c)) l = true ->
  l <> [] -> Z.of_nat (List.length l) - 1 <= i ->
  basenameLoop (l ++ rest) i v
  = basenameLoop rest (i - Z.of_nat (List.length l))
      (mkBase (b_start v)
         (if b_end v =? -1 then i + 1 else b_end v)
         (if b_end v =? -1 then false else b_matchedSlash v)
         (extIdx v) (firstNonSlashEnd v)).
Proof.
  revert i v. induction l as [| c l IH]; intros i v Hs Hne Hi; [congruence |].
  cbn in Hs. apply andb_prop in Hs. destruct Hs as [Hc Hs].
  apply negb_true_iff in Hc. cbn [app basenameLoop]. rewrite Hc.
  cbn [List.length] in Hi |- *.
  destruct l as [| c' l].
  - cbn [app List.length]. change (Z.of_nat 1) with 1.
    destruct (Z.eqb_spec (b_end v) (-1)); [reflexivity |].
    destruct v; reflexivity.
  - destruct (Z.eqb_spec (b_end v) (-1)) as [E | E].
    + rewrite IH; [| exact Hs | discriminate | cbn [List.length] in *; lia].
      cbn [b_start b_end b_matchedSlash extIdx firstNonSlashEnd].
      destruct (Z.eqb_spec (i + 1) (-1)); [cbn [List.length] in Hi; lia |].
      replace (i - 1 - Z.of_nat (List.length (c' :: l)))
        with (i - Z.of_nat (S (List.length (c' :: l)))) by lia.
      reflexivity.
    + rewrite IH; [| exact Hs | discriminate | cbn [List.length] in *; lia].
      destruct (Z.eqb_spec (b_end v) (-1)); [contradiction |].
      replace (i - 1 - Z.of_nat (List.length (c' :: l)))
        with (i - Z.of_nat (S (List.length (c' :: l)))) by lia.
      reflexivity.
Qed.

(** [basename] without an extension returns the last name. *)
Lemma basename_name pre stem :
  dirPart pre = true -> stem <> "" -> slashFree stem = true ->
  basename (pre ++ stem) "" = stem.
Proof.
  intros Hpre Hne Hsf. unfold basename.
  change (Js.length "") with 0. cbn [Z.ltb Z.compare andb].
  pose proof (js_length_pos stem Hne) as Hs.
  pose proof (js_length_nonneg pre) as Hp.
  rewrite js_length_app, chars_app, rev_app_distr.
  rewrite basenameLoop_name;
    [| now apply slashFree_rev | now apply rev_chars_nonempty
     | rewrite length_rev, chars_length; lia].
  rewrite length_rev, chars_length.
  cbn [b_start b_end b_matchedSlash extIdx firstNonSlashEnd].
  change (-1 =? -1) with true. cbn iota.
  assert (Hfin : forall v,
    v = basenameLoop (rev (chars pre))
          (Js.length pre + Js.length stem - 1 - Js.length stem)
          (mkBase 0 (Js.length pre + Js.length stem - 1 + 1) false (-1) (-1)) ->
    b_start v = Js.length pre
    /\ b_end v = Js.length pre + Js.length stem).
  { intros v ->. destruct (dirPart_rev pre Hpre) as [-> | (l & Hl)].
    - cbn. change (Js.length "") with 0. split; lia.
    - rewrite Hl. cbn. split; lia. }
  destruct (Hfin _ eq_refl) as [-> ->].
  destruct (Z.eqb_spec (Js.length pre + Js.length stem) (-1)); [lia |].
  apply slice_tail.
Qed.

Lemma extnameLoop_plain l rest i v :
  forallb (fun c => negb (isSlash c)) l = true ->
  forallb (fun c => negb (isDot c)) l = true ->
  startDot v = -1 ->
  e_matchedSlash v = false \/ e_end v = -1 ->
  exists v',
    extnameLoop (l ++ rest) i v
    = extnameLoop rest (i - Z.of_nat (List.length l)) v'
    /\ startDot v' = -1 /\ preDotState v' = preDotState v
    /\ (e_matchedSlash v' = false \/ e_end v' = -1).
Proof.
  revert i v. induction l as [| c l IH]; intros i v Hs Hd Hsd Hinv.
  - exists v. cbn. rewrite Z.sub_0_r. auto.
  - cbn in Hs, Hd. apply andb_prop in Hs, Hd.
    destruct Hs as [Hc Hs], Hd as [Hcd Hd].
    apply negb_true_iff in Hc, Hcd.
    cbn [app extnameLoop]. rewrite Hc, Hcd.
    set (v1 := if e_end v =? -1
               then mkExt (startDot v) (startPart v) (i + 1) false (preDotState v)
               else v).
    assert (Hv1 : startDot v1 = -1 /\ preDotState v1 = preDotState v
                  /\ e_matchedSlash v1 = false).
    { subst v1. destruct (Z.eqb_spec (e_end v) (-1)); cbn; repeat split; auto;
        destruct Hinv; [assumption | contradiction]. }
    destruct Hv1 as (H1 & H2 & H3). rewrite H1.
    change (-1 =? -1) with true. cbn [negb].
    destruct (IH (i - 1) v1 Hs Hd H1 (or_introl H3)) as (v' & He & Hs' & Hp' & Hi').
    exists v'. rewrite He. cbn [List.length].
    replace (i - 1 - Z.of_nat (List.length l))
      with (i - Z.of_nat (S (List.length l))) by lia.
    repeat split; try congruence; exact Hi'.
Qed.

Lemma extnameLoop_first c rest i v :
  isSlash c = false -> startDot v = -1 ->
  e_matchedSlash v = false \/ e_end v = -1 ->
  exists v',
    extnameLoop (c :: rest) i v = extnameLoop rest (i - 1) v'
    /\ preDotState v' = preDotState v /\ e_matchedSlash v' = false.
Proof.
  intros Hc Hsd Hinv. cbn [extnameLoop]. rewrite Hc.
  set (v1 := if e_end v =? -1
             then mkExt (startDot v) (startPart v) (i + 1) false (preDotState v)
             else v).
  assert (Hv1 : startDot v1 = -1 /\ preDotState v1 = preDotState v
                /\ e_matchedSlash v1 = false).
  { subst v1. destruct (Z.eqb_spec (e_end v) (-1)); cbn; repeat split; auto;
      destruct Hinv; [assumption | contradiction]. }
  destruct Hv1 as (H1 & H2 & H3). rewrite H1.
  change (-1 =? -1) with true. cbn [negb].
  eexists. split; [reflexivity |].
  destruct (isDot c); cbn [preDotState e_matchedSlash]; auto.
Qed.

Lemma extnameLoop_dirPart pre i v :
  dirPart pre = true -> e_matchedSlash v = false ->
  preDotState (extnameLoop (rev (chars pre)) i v) = preDotState v.
Proof.
  intros Hpre Hm. destruct (dirPart_rev pre Hpre) as [-> | (l & ->)].
  - reflexivity.
  - cbn [extnameLoop]. change (isSlash "/") with true. cbn iota.
    rewrite Hm. reflexivity.
Qed.

(** A name with no dot after its first character has no extension. *)
Lemma extname_none pre c t :
  dirPart pre = true ->
  slashFree (String c t) = true -> dotFree t = true ->
  extname (pre ++ String c t) = "".
Proof.
  intros Hpre Hsf Hdf. unfold extname.
  assert (Hs : isSlash c = false /\ slashFree t = true).
  { unfold slashFree in Hsf. cbn in Hsf. apply andb_prop in Hsf.
    destruct Hsf as [Hc Ht]. split; [now apply negb_true_iff | exact Ht]. }
  destruct Hs as [Hc Ht].
  rewrite chars_app, rev_app_distr.
  change (chars (String c t)) with (c :: chars t). cbn [rev].
  rewrite <- !app_assoc. cbn [app].
  destruct (extnameLoop_plain (rev (chars t)) (c :: rev (chars pre))
              (Js.length (pre ++ String c t) - 1) (mkExt (-1) 0 (-1) true 0)
              (slashFree_rev t Ht) (dotFree_rev t Hdf) eq_refl
              (or_intror eq_refl))
    as (v1 & -> & Hsd & Hpd & Hinv).
  destruct (extnameLoop_first c (rev (chars pre))
              (Js.length (pre ++ String c t) - 1
               - Z.of_nat (List.length (rev (chars t)))) v1 Hc Hsd Hinv)
    as (v2 & -> & Hpd2 & Hm2).
  pose proof (extnameLoop_dirPart pre
                (Js.length (pre ++ String c t) - 1
                 - Z.of_nat (List.length (rev (chars t))) - 1) v2 Hpre Hm2)
    as Hfin.
  rewrite Hpd2, Hpd in Hfin. cbn [preDotState] in Hfin. rewrite Hfin.
  change (0 =? 0) with true. now rewrite !orb_true_r.
Qed.

Lemma plain_name_not_coffee_md pre c t :
  dirPart pre = true ->
  slashFree (String c t) = true -> dotFree t = true ->
  Js.endsWith (pre ++ String c t) ".coffee.md" = false.
Proof.
  intros Hpre Hsf Hdf.
  destruct (Js.endsWith (pre ++ String c t) ".coffee.md") eqn:E; [| reflexivity].
  exfalso. apply endsWith_inv in E. destruct E as (x & Hx).
  apply (f_equal (fun u => rev (chars u))) in Hx.
  rewrite !chars_app, !rev_app_distr in Hx.
  change (chars (String c t)) with (c :: chars t) in Hx. cbn [rev] in Hx.
  rewrite <- !app_assoc in Hx.
  change (rev (chars ".coffee.md"))
    with ["d"; "m"; "."; "e"; "e"; "f"; "f"; "o"; "c"; "."]%char in Hx.
  cbn [app] in Hx.
  pose proof (dotFree_rev t Hdf) as Hd.
  destruct (rev (chars t)) as [| a [| b [| d l]]]; cbn [app] in Hx.
  - injection Hx as _ Hx.
    destruct (dirPart_rev pre Hpre) as [-> | (l & Hl)];
      [discriminate | rewrite Hl in Hx; discriminate].
  - injection Hx as _ _ Hx.
    destruct (dirPart_rev pre Hpre) as [-> | (l & Hl)];
      [discriminate | rewrite Hl in Hx; discriminate].
  - injection Hx as _ _ _ Hx.
    destruct (dirPart_rev pre Hpre) as [-> | (l & Hl)];
      [discriminate | rewrite Hl in Hx; discriminate].
  - injection Hx as _ _ Hx _. subst d. cbn in Hd.
    rewrite !andb_false_r in Hd. discriminate.
Qed.

(** X16.  A path given on the command line is converted whatever its
    name: a file name without a dot after its first character has no
    extension to strip and gets ".js" appended. *)
Theorem names_without_extension (pre : string) (c : ascii) (t : string) :
  dirPart pre = true -> fileName (String c t) = true -> dotFree t = true ->
  outputPath (pre ++ String c t) = normalize (pre ++ String c t) ++ ".js".
Proof.
  intros Hpre Hname Hdf.
  destruct (fileName_spec _ Hname) as (Hne & Hsf & _ & _).
  unfold outputPath, extension.
  rewrite plain_name_not_coffee_md, extname_none by assumption.
  rewrite dirname_name, basename_name by assumption.
  rewrite join_name, joinPrefix_dirOf by assumption.
  now rewrite normalize_name.
Qed.


(** *** Children of a directory in normal form *)

Lemma normPrefix_extra_slash pre allow :
  dirPart pre = true -> pre <> "" ->
  normPrefix (pre ++ "/") allow = normPrefix pre allow.
Proof.
  intros Hpre Hne. unfold normPrefix at 1.
  rewrite chars_app, normFold_app, chars_length.
  rewrite (normFold_prefix pre "/" "" allow (chars pre) 0 (mkNorm "" (-1) 0))
    by (cbn [lastSlash]; rewrite ?chars_length; lia).
  rewrite append_nil_r.
  destruct (normFold_dirPart pre allow pre Hpre) as [Hls _].
  cbn zeta in Hls. unfold normPrefix.
  set (V0 := normFold pre allow (chars pre) 0 (mkNorm "" (-1) 0)) in *.
  change (chars "/") with ["/"%char]. cbn [normFold].
  change (isSlash "/") with true. cbn iota.
  unfold normSlash. rewrite Hls.
  replace (Js.length pre - 1 =? 0 + Js.length pre - 1) with true
    by (symmetry; apply Z.eqb_eq; lia).
  reflexivity.
Qed.

Lemma dirPrefix_extra_slash pre :
  dirPart pre = true -> pre <> "" -> dirPrefix (pre ++ "/") = dirPrefix pre.
Proof.
  intros Hpre Hne. unfold dirPrefix.
  assert (Hf : firstIsSlash (pre ++ "/") = firstIsSlash pre)
    by (destruct pre; [congruence | reflexivity]).
  rewrite Hf, normPrefix_extra_slash by assumption. reflexivity.
Qed.

Lemma joinPrefix_normal root dirs dir :
  root = "" \/ root = "/" ->
  forallb fileName dirs = true ->
  dir <> "" ->
  dir ++ "/" = root ++ dirString dirs \/ dir = root ++ dirString dirs ->
  joinPrefix dir = root ++ dirString dirs.
Proof.
  intros Hroot Hdirs Hne Hdir.
  assert (Hr : dirPart root = true /\ dirPrefix root = root)
    by (destruct Hroot as [-> | ->]; split; reflexivity).
  destruct Hr as [Hr1 Hr2].
  unfold joinPrefix.
  destruct (Z.ltb_spec 0 (Js.length dir)) as [_ | Hl];
    [| pose proof (js_length_pos dir Hne); lia].
  destruct Hdir as [-> | ->].
  - rewrite dirPrefix_dirs by assumption. now rewrite Hr2.
  - rewrite dirPrefix_extra_slash;
      [| now apply dirPart_dirs | exact Hne].
    rewrite dirPrefix_dirs by assumption. now rewrite Hr2.
Qed.

Lemma fileName_ext stem ext :
  fileName stem = true -> slashFree ext = true ->
  (2 <= String.length ext)%nat ->
  fileName (stem ++ ext) = true.
Proof.
  intros H Hes Hlen. destruct (fileName_spec stem H) as (Hne & Hsf & _ & _).
  unfold fileName.
  assert (Hl : (3 <= String.length (stem ++ ext))%nat).
  { rewrite str_length_app. destruct stem; [congruence | cbn; lia]. }
  rewrite (slashFree_app stem ext Hsf Hes).
  repeat (apply andb_true_intro; split); try reflexivity;
    apply negb_true_iff, String.eqb_neq; intros E; rewrite E in Hl;
    cbn in Hl; lia.
Qed.

(** X17.  A child found in a directory is converted beside itself: for
    a directory path in normal form, with or without a slash at its
    end, the child name.ext is processed under the path of the
    directory followed by name.ext, and its output is name.js joined
    to the same directory. *)
Theorem child_is_converted_beside_itself
    (root : string) (dirs : list string) (dir stem ext : string) :
  root = "" \/ root = "/" ->
  forallb fileName dirs = true ->
  dir <> "" ->
  dir ++ "/" = root ++ dirString dirs \/ dir = root ++ dirString dirs ->
  fileName stem = true ->
  In ext [".coffee"; ".litcoffee"; ".coffee.md"; ".js"] ->
  join dir (stem ++ ext) = root ++ dirString dirs ++ stem ++ ext
  /\ outputPath (join dir (stem ++ ext)) = join dir (stem ++ ".js").
Proof.
  intros Hroot Hdirs Hne Hdir Hstem Hext.
  assert (Hr : dirPart root = true /\ dirPrefix root = root)
    by (destruct Hroot as [-> | ->]; split; reflexivity).
  destruct Hr as [Hr1 Hr2].
  pose proof (joinPrefix_normal root dirs dir Hroot Hdirs Hne Hdir) as Hj.
  assert (Hpre : dirPart (root ++ dirString dirs) = true)
    by now apply dirPart_dirs.
  assert (Hnorm : normalize ((root ++ dirString dirs) ++ stem)
                  = (root ++ dirString dirs) ++ stem).
  { rewrite normalize_name, dirPrefix_dirs by assumption. now rewrite Hr2. }
  assert (Hjs : join dir (stem ++ ".js")
                = ((root ++ dirString dirs) ++ stem) ++ ".js").
  { rewrite join_name, Hj by (apply fileName_js; assumption).
    now rewrite !append_assoc. }
  assert (Hin : join dir (stem ++ ext) = (root ++ dirString dirs) ++ stem ++ ext).
  { rewrite join_name, Hj; [reflexivity |].
    cbn in Hext.
    destruct Hext as [<- | [<- | [<- | [<- | []]]]];
      apply fileName_ext; auto; cbn; lia. }
  split; [rewrite Hin; apply append_assoc |].
  rewrite Hin, Hjs, <- Hnorm.
  destruct (outputs_of_extensions (root ++ dirString dirs) stem Hpre Hstem)
    as (H1 & H2 & H3).
  cbn in Hext. destruct Hext as [<- | [<- | [<- | [<- | []]]]];
    try assumption.
  rewrite Hnorm. rewrite outputPath_js by assumption.
  rewrite (normalize_name _ (stem ++ ".js")), dirPrefix_dirs
    by (try apply fileName_js; assumption).
  rewrite Hr2. now rewrite !append_assoc.
Qed.

End MorePathFacts.

(** ** The further facts on the fixtures *)

Lemma plain_arguments_are_paths_witness :
  parseArguments ["--modernize-js"; "src"; "--prefer-const"; "lib/a.js"; "b.js"]
  = ParsedOptions
      (mkCLIOptions ["src"; "lib/a.js"; "b.js"] (setPreferConst emptyOptions)
         true).
Proof.
  exact (plain_arguments_are_paths
           ["--modernize-js"; "src"; "--prefer-const"] ["lib/a.js"; "b.js"]
           (mkCLIOptions ["src"] (setPreferConst emptyOptions) true)
           eq_refl eq_refl).
Defined.

Lemma identifier_list_is_next_argument_witness :
  exists names,
    parseArguments
      ["a.coffee"; "--safe-import-function-identifiers"; "--help"; "b.coffee"]
    = ParsedOptions
        (mkCLIOptions ["a.coffee"; "b.coffee"]
           (setSafeImportFunctionIdentifiers names emptyOptions) false)
    /\ names = ["--help"].
Proof.
  destruct (identifier_list_is_next_argument
              ["a.coffee"] ["b.coffee"]
              (mkCLIOptions ["a.coffee"] emptyOptions false) "--help"
              eq_refl eq_refl)
    as (names & Hparse & _ & _ & _ & Hone).
  exists names. split; [exact Hparse |].
  symmetry. apply Hone; [reflexivity | reflexivity | discriminate].
Defined.

Lemma arguments_are_checked_before_any_work_witness :
  Fixture.run ["a.coffee"; "--frobnicate"; "c.coffee"] Fixture.fsABC [] 10
  = Some (Exited 1,
          mkState [] [] Fixture.fsABC
            [ConsoleError "Error: unrecognized option '--frobnicate'"]).
Proof.
  apply (proj1 (proj2 (arguments_are_checked_before_any_work
                         Fixture.Err Fixture.FS
                         Fixture.stat Fixture.readdir Fixture.readFile
                         Fixture.writeFile Fixture.convert Fixture.modernizeJS
                         Fixture.detect Fixture.prettyPrint
                         ["a.coffee"] ["c.coffee"]
                         (mkCLIOptions ["a.coffee"] emptyOptions false)
                         Fixture.fsABC [] 10%nat eq_refl))
           "--frobnicate").
  - reflexivity.
  - cbn. intuition discriminate.
Defined.

Lemma undocumented_option_is_rejected_witness :
  parseArguments ["--recursive"; "src"]
  = ParsedUnrecognized "Error: unrecognized option '--recursive'".
Proof.
  apply (undocumented_option_is_rejected "/usr/bin/decaffeinate" "--recursive"
           ["src"] eq_refl).
  intros line Hin.
  assert (Hall : forallb (fun l => negb (includes l "--recursive"))
                   (usage "/usr/bin/decaffeinate") = true)
    by (vm_compute; reflexivity).
  rewrite forallb_forall in Hall. apply negb_true_iff. now apply Hall.
Defined.

Lemma stream_mode_failure_writes_nothing_witness :
  Fixture.run [] Fixture.fsABC ["PATCH"; " x"] 0
  = Some (Exited 1,
          mkState [] [] Fixture.fsABC
            [Engine "stdin" "PATCH x";
             ConsoleError "stdin: PatchError: unexpected token"]).
Proof.
  apply (stream_mode_failure_writes_nothing Fixture.Err Fixture.FS
           Fixture.stat Fixture.readdir Fixture.readFile
           Fixture.writeFile Fixture.convert Fixture.modernizeJS
           Fixture.detect Fixture.prettyPrint
           [] Fixture.convertMode Fixture.fsABC ["PATCH"; " x"] 0%nat
           "PatchError: unexpected token");
    reflexivity.
Defined.

Lemma listing_read_write_errors_are_recorded_witness :
  Fixture.processNext Fixture.convertMode false
    (mkState ["x.coffee"; "y.coffee"] [] Fixture.fsClash [])
  = Next (mkState ["y.coffee"] ["EISDIR"] Fixture.fsClash
            [Stat "x.coffee"; ConsoleLog "x.coffee → x.js";
             ReadFile "x.coffee"; Engine "x.coffee" "x = 1";
             WriteFile "x.js" "/*js*/x = 1"]).
Proof.
  apply (proj2 (proj2 (listing_read_write_errors_are_recorded
                         Fixture.Err Fixture.FS
                         Fixture.stat Fixture.readdir Fixture.readFile
                         Fixture.writeFile Fixture.convert Fixture.modernizeJS
                         Fixture.detect Fixture.prettyPrint
                         Fixture.convertMode false
                         (mkState ["x.coffee"; "y.coffee"] []
                            Fixture.fsClash [])
                         "x.coffee" ["y.coffee"] (mkStats false)
                         eq_refl eq_refl))
           "x = 1" "/*js*/x = 1" Fixture.fsClash "EISDIR");
    reflexivity.
Defined.

Lemma callback_called_once_when_drained_witness :
  exists evs,
    events FixtureRuns.abcDrained = (evs ++ [Callback []])%list
    /\ forall es, ~ In (Callback es) evs.
Proof.
  exact (callback_called_once_when_drained
           Fixture.Err Fixture.FS
           Fixture.stat Fixture.readdir Fixture.readFile
           Fixture.writeFile Fixture.convert Fixture.modernizeJS
           Fixture.detect Fixture.prettyPrint
           Fixture.convertMode true
           ["a.coffee"; "c.coffee"] Fixture.fsABC 10%nat
           Drained FixtureRuns.abcDrained eq_refl eq_refl).
Defined.




Lemma filters_are_disjoint_witness :
  eligible Fixture.convertMode "a.js" = false.
Proof.
  apply (filters_are_disjoint Fixture.modernizeMode Fixture.convertMode "a.js");
    reflexivity.
Defined.

Lemma conversion_keeps_its_source_witness :
  outputPath "src/a.litcoffee" <> "src/a.litcoffee"
  /\ outputPath (NodePath.join "src" "a.coffee.md")
     <> NodePath.join "src" "a.coffee.md".
Proof.
  split.
  - exact (proj1 conversion_keeps_its_source "src/a.litcoffee" eq_refl).
  - exact (proj2 conversion_keeps_its_source Fixture.convertMode
             "src" "a.coffee.md" eq_refl eq_refl eq_refl).
Defined.

Lemma extensions_share_one_output_witness :
  outputPath "src/a.litcoffee" = outputPath "src/a.coffee"
  /\ outputPath "src/a.coffee.md" = outputPath "src/a.coffee".
Proof.
  destruct (extensions_share_one_output "src/" "a" eq_refl eq_refl)
    as (Hlit & Hmd & _).
  split; [exact Hlit | exact Hmd].
Defined.

Lemma names_without_extension_witness :
  outputPath "bin/Cakefile" = "bin/Cakefile.js".
Proof.
  exact (names_without_extension "bin/" "C" "akefile"
           eq_refl eq_refl eq_refl).
Defined.

Lemma child_is_converted_beside_itself_witness :
  NodePath.join "src/lib" "a.coffee" = "src/lib/a.coffee"
  /\ outputPath (NodePath.join "src/lib" "a.coffee")
     = NodePath.join "src/lib" "a.js".
Proof.
  apply (child_is_converted_beside_itself "" ["src"; "lib"] "src/lib" "a"
           ".coffee").
  - left. reflexivity.
  - reflexivity.
  - discriminate.
  - left. reflexivity.
  - reflexivity.
  - left. reflexivity.
Defined.
